(** * js-midi-synth: the MIDI event interpreter and voice-lifecycle manager

    A shallow embedding of [src/midiSynth.js].  The script keeps its
    session in module-level variables ([audioContext], [masterGainNode],
    [masterFilter], [midiPorts], [pressedKeys]) and drives the browser's
    Web Audio and Web MIDI objects from event callbacks.  Here the variables
    are the fields of one [State] record, the callbacks are computations in a
    state-and-exception monad, and the host objects (audio nodes, event
    listener lists, the two text panes) are explicit data.

    JavaScript numbers are read as real numbers: [Math.log] is [ln],
    [Math.pow] is [Rpower], [/] is real division.  MIDI data bytes are
    integers ([Z]). *)

From Stdlib Require Import ZArith List Ascii String Bool Arith Lia Reals Lra.
Import ListNotations.

Local Open Scope string_scope.
Local Open Scope list_scope.
Local Open Scope Z_scope.

(** ** JavaScript objects used as maps *)

(** [midiPorts] and [pressedKeys] are created as [{}] and used through
    [obj[k]], [obj[k] = v] and [delete obj[k]].  An object is modelled by the
    list of its own properties.  Assigning to an existing key replaces the
    value in place, assigning to a new key adds a property; the script never
    enumerates an object, so the order of the list is not observed. *)
Module JSObject.
Section OwnProperties.
Context {K V : Type} (eqb : K -> K -> bool).

Definition t : Type := list (K * V).

Definition empty : t := [].

Fixpoint get (k : K) (o : t) : option V :=
  match o with
  | [] => None
  | (k', v) :: o' => if eqb k k' then Some v else get k o'
  end.

Fixpoint set (k : K) (v : V) (o : t) : t :=
  match o with
  | [] => [(k, v)]
  | (k', v') :: o' =>
      if eqb k k' then (k, v) :: o' else (k', v') :: set k v o'
  end.

Fixpoint delete (k : K) (o : t) : t :=
  match o with
  | [] => []
  | (k', v') :: o' =>
      if eqb k k' then delete k o' else (k', v') :: delete k o'
  end.

(** Number of own properties stored under [k]. *)
Definition entries (k : K) (o : t) : nat :=
  List.length (filter (fun kv => eqb k (fst kv)) o).

(** Each key holds at most one own property. *)
Definition unique_keys (o : t) : Prop :=
  forall k, (entries k o <= 1)%nat.
End OwnProperties.

(** Property names every plain object inherits from [Object.prototype].  A
    read [obj[k]] of such a name on an object without an own property [k]
    yields the inherited member, a function or an object, hence a truthy
    value. *)
Definition Object_prototype : list string :=
  [ "constructor"; "hasOwnProperty"; "isPrototypeOf"; "propertyIsEnumerable";
    "toLocaleString"; "toString"; "valueOf"; "__proto__";
    "__defineGetter__"; "__defineSetter__";
    "__lookupGetter__"; "__lookupSetter__" ].

Definition inherited (k : string) : bool :=
  existsb (String.eqb k) Object_prototype.
End JSObject.

(** ** The audio engine (Web Audio) *)

(** Audio nodes are objects; a [NodeId] is the reference to one, its index in
    the node store of the context that created it. *)
Definition NodeId := nat.

Record AudioParam := { value : R }.

Inductive AudioNode :=
| AudioDestinationNode
| GainNode (gain : AudioParam) (outputs : list NodeId)
| BiquadFilterNode (type : string) (frequency Q : AudioParam)
    (outputs : list NodeId)
| OscillatorNode (type : string) (frequency : AudioParam)
    (outputs : list NodeId).

(** Scheduling commands received by the engine, oldest first. *)
Inductive Call :=
| Start (osc : NodeId)
| Stop (osc : NodeId).

Definition Call_eqb (a b : Call) : bool :=
  match a, b with
  | Start x, Start y => Nat.eqb x y
  | Stop x, Stop y => Nat.eqb x y
  | _, _ => false
  end.

Definition isStop (c : Call) : bool :=
  match c with Stop _ => true | Start _ => false end.

(** What a freshly created node holds before the script touches it.  These
    values belong to the engine, not to the script. *)
Record Defaults := {
  gain_default : R;
  oscillator_type_default : string;
  oscillator_frequency_default : R;
  biquad_type_default : string;
  biquad_frequency_default : R;
  biquad_Q_default : R
}.

(** The defaults of the Web Audio API: unit gain, a 440 Hz sine, and a
    low-pass filter at 350 Hz with Q = 1. *)
Definition WebAudio : Defaults :=
  {| gain_default := 1%R;
     oscillator_type_default := "sine";
     oscillator_frequency_default := 440%R;
     biquad_type_default := "lowpass";
     biquad_frequency_default := 350%R;
     biquad_Q_default := 1%R |}.

(** A running context: its node store and the commands it has received.
    Node 0 is [audioContext.destination]. *)
Record BaseAudioContext := {
  defaults : Defaults;
  nodes : list AudioNode;
  calls : list Call
}.

Definition destination : NodeId := 0%nat.

(** [new ACtx()] *)
Definition new_context (ACtx : Defaults) : BaseAudioContext :=
  {| defaults := ACtx; nodes := [AudioDestinationNode]; calls := [] |}.

Fixpoint update_nth {A} (i : nat) (f : A -> A) (l : list A) : list A :=
  match l, i with
  | [], _ => []
  | x :: l', O => f x :: l'
  | x :: l', S i' => x :: update_nth i' f l'
  end.

Definition add_node (n : AudioNode) (c : BaseAudioContext)
  : NodeId * BaseAudioContext :=
  (List.length (nodes c),
   {| defaults := defaults c; nodes := nodes c ++ [n]; calls := calls c |}).

Definition update_node (id : NodeId) (f : AudioNode -> AudioNode)
  (c : BaseAudioContext) : BaseAudioContext :=
  {| defaults := defaults c;
     nodes := update_nth id f (nodes c);
     calls := calls c |}.

Definition add_call (k : Call) (c : BaseAudioContext) : BaseAudioContext :=
  {| defaults := defaults c; nodes := nodes c; calls := calls c ++ [k] |}.

Definition started (osc : NodeId) (c : BaseAudioContext) : bool :=
  existsb (Call_eqb (Start osc)) (calls c).

(** [node.connect(target)]: connecting the same pair again adds nothing. *)
Definition add_output (target : NodeId) (n : AudioNode) : AudioNode :=
  let add outs :=
    if existsb (Nat.eqb target) outs then outs else outs ++ [target] in
  match n with
  | AudioDestinationNode => AudioDestinationNode
  | GainNode g outs => GainNode g (add outs)
  | BiquadFilterNode t f q outs => BiquadFilterNode t f q (add outs)
  | OscillatorNode t f outs => OscillatorNode t f (add outs)
  end.

(** [node.gain.value = v] *)
Definition set_gain_value (v : R) (n : AudioNode) : AudioNode :=
  match n with
  | GainNode _ outs => GainNode {| value := v |} outs
  | other => other
  end.

(** [node.frequency.value = v] *)
Definition set_frequency_value (v : R) (n : AudioNode) : AudioNode :=
  match n with
  | BiquadFilterNode t _ q outs => BiquadFilterNode t {| value := v |} q outs
  | OscillatorNode t _ outs => OscillatorNode t {| value := v |} outs
  | other => other
  end.

(** [node.Q.value = v] *)
Definition set_Q_value (v : R) (n : AudioNode) : AudioNode :=
  match n with
  | BiquadFilterNode t f _ outs => BiquadFilterNode t f {| value := v |} outs
  | other => other
  end.

Definition set_type (t : string) (n : AudioNode) : AudioNode :=
  match n with
  | BiquadFilterNode _ f q outs => BiquadFilterNode t f q outs
  | OscillatorNode _ f outs => OscillatorNode t f outs
  | other => other
  end.

(** The values the script assigns to attributes of a node. *)
Inductive JSValue :=
| JSString (s : string)
| JSNumber (x : R).

(** [node.attr = v] in a classic script.  [type] is a writable attribute.
    [frequency], [Q] and [gain] are read-only attributes (an accessor with a
    getter and no setter) that hold the node's [AudioParam] objects: an
    assignment to one of them is discarded and the attribute keeps its
    [AudioParam], whose [value] is what the engine reads. *)
Definition assign_attribute (attr : string) (v : JSValue) (n : AudioNode)
  : AudioNode :=
  match v with
  | JSString t => if String.eqb attr "type" then set_type t n else n
  | JSNumber _ => n
  end.

(** ** MIDI ports and event listeners (Web MIDI, DOM) *)

Definition PortId := nat.

(** A [MIDIPort] object: [port_id] is the identity of the object, the other
    fields are the attributes the script reads. *)
Record MIDIPort := {
  port_id : PortId;
  name : string;
  port_type : string;
  port_state : string
}.

Inductive EventTarget :=
| AccessTarget
| PortTarget (id : PortId)
| ButtonTarget.

Inductive Callback :=
| cb_onStateChange
| cb_onMidiMessage
| cb_onStartBtnClick.

(** One registered listener: target, event type, callback. *)
Definition Listener : Type := EventTarget * string * Callback.

Definition EventTarget_eqb (a b : EventTarget) : bool :=
  match a, b with
  | AccessTarget, AccessTarget => true
  | PortTarget x, PortTarget y => Nat.eqb x y
  | ButtonTarget, ButtonTarget => true
  | _, _ => false
  end.

Definition Callback_eqb (a b : Callback) : bool :=
  match a, b with
  | cb_onStateChange, cb_onStateChange => true
  | cb_onMidiMessage, cb_onMidiMessage => true
  | cb_onStartBtnClick, cb_onStartBtnClick => true
  | _, _ => false
  end.

Definition Listener_eqb (a b : Listener) : bool :=
  let '(ta, ea, ca) := a in
  let '(tb, eb, cb) := b in
  EventTarget_eqb ta tb && String.eqb ea eb && Callback_eqb ca cb.

(** ** The page *)

(** [window.AudioContext] and [window.webkitAudioContext]: the constructors
    the browser offers, if any. *)
Record Window := {
  AudioContext : option Defaults;
  webkitAudioContext : option Defaults
}.

(** What [printMessageInfo] writes to the [messages] pane: the fields its
    template renders. *)
Record MessageInfo := {
  info_target : string;
  info_status : Z;
  info_data1 : Z;
  info_noteFreq : option R;
  info_data2 : Z
}.

Record Button := {
  disabled : bool;
  innerText : string
}.

(** The module-level variables of the script together with the host state it
    acts on. *)
Record State := {
  window : Window;
  audioContext : option BaseAudioContext;
  masterGainNode : option NodeId;
  masterFilter : option NodeId;
  midiPorts : JSObject.t (K := string) (V := MIDIPort);
  pressedKeys : JSObject.t (K := Z) (V := NodeId);
  listeners : list Listener;
  status : string;
  messages : option MessageInfo;
  startBtn : Button
}.

Definition with_audioContext (v : option BaseAudioContext) (s : State) :=
  {| window := window s; audioContext := v;
     masterGainNode := masterGainNode s; masterFilter := masterFilter s;
     midiPorts := midiPorts s; pressedKeys := pressedKeys s;
     listeners := listeners s; status := status s;
     messages := messages s; startBtn := startBtn s |}.

Definition with_masterGainNode (v : option NodeId) (s : State) :=
  {| window := window s; audioContext := audioContext s;
     masterGainNode := v; masterFilter := masterFilter s;
     midiPorts := midiPorts s; pressedKeys := pressedKeys s;
     listeners := listeners s; status := status s;
     messages := messages s; startBtn := startBtn s |}.

Definition with_masterFilter (v : option NodeId) (s : State) :=
  {| window := window s; audioContext := audioContext s;
     masterGainNode := masterGainNode s; masterFilter := v;
     midiPorts := midiPorts s; pressedKeys := pressedKeys s;
     listeners := listeners s; status := status s;
     messages := messages s; startBtn := startBtn s |}.

Definition with_midiPorts (v : JSObject.t) (s : State) :=
  {| window := window s; audioContext := audioContext s;
     masterGainNode := masterGainNode s; masterFilter := masterFilter s;
     midiPorts := v; pressedKeys := pressedKeys s;
     listeners := listeners s; status := status s;
     messages := messages s; startBtn := startBtn s |}.

Definition with_pressedKeys (v : JSObject.t) (s : State) :=
  {| window := window s; audioContext := audioContext s;
     masterGainNode := masterGainNode s; masterFilter := masterFilter s;
     midiPorts := midiPorts s; pressedKeys := v;
     listeners := listeners s; status := status s;
     messages := messages s; startBtn := startBtn s |}.

Definition with_listeners (v : list Listener) (s : State) :=
  {| window := window s; audioContext := audioContext s;
     masterGainNode := masterGainNode s; masterFilter := masterFilter s;
     midiPorts := midiPorts s; pressedKeys := pressedKeys s;
     listeners := v; status := status s;
     messages := messages s; startBtn := startBtn s |}.

Definition with_status (v : string) (s : State) :=
  {| window := window s; audioContext := audioContext s;
     masterGainNode := masterGainNode s; masterFilter := masterFilter s;
     midiPorts := midiPorts s; pressedKeys := pressedKeys s;
     listeners := listeners s; status := v;
     messages := messages s; startBtn := startBtn s |}.

Definition with_messages (v : option MessageInfo) (s : State) :=
  {| window := window s; audioContext := audioContext s;
     masterGainNode := masterGainNode s; masterFilter := masterFilter s;
     midiPorts := midiPorts s; pressedKeys := pressedKeys s;
     listeners := listeners s; status := status s;
     messages := v; startBtn := startBtn s |}.

Definition with_startBtn (v : Button) (s : State) :=
  {| window := window s; audioContext := audioContext s;
     masterGainNode := masterGainNode s; masterFilter := masterFilter s;
     midiPorts := midiPorts s; pressedKeys := pressedKeys s;
     listeners := listeners s; status := status s;
     messages := messages s; startBtn := v |}.

(** The state when the script has been loaded and no callback has run. *)
Definition initial (w : Window) : State :=
  {| window := w; audioContext := None;
     masterGainNode := None; masterFilter := None;
     midiPorts := JSObject.empty; pressedKeys := JSObject.empty;
     listeners := []; status := "";
     messages := None;
     startBtn := {| disabled := false; innerText := "" |} |}.

(** ** Computations: state and exceptions *)

Inductive Error :=
| TypeError
| InvalidStateError.

(** A callback either completes or throws; the mutations it made before
    throwing stay. *)
Inductive Completion (A : Type) :=
| Normal (a : A) (s : State)
| Throw (e : Error) (s : State).
Arguments Normal {A} a s.
Arguments Throw {A} e s.

Definition M (A : Type) : Type := State -> Completion A.

Definition ret {A} (a : A) : M A := fun s => Normal a s.

Definition bind {A B} (m : M A) (k : A -> M B) : M B :=
  fun s =>
    match m s with
    | Normal a s' => k a s'
    | Throw e s' => Throw e s'
    end.

Definition throw {A} (e : Error) : M A := fun s => Throw e s.

Definition gets {A} (f : State -> A) : M A := fun s => Normal (f s) s.

Definition modify (f : State -> State) : M unit := fun s => Normal tt (f s).

Declare Scope js_scope.
Delimit Scope js_scope with js.
Notation "x <- m ;; k" := (bind m (fun x => k))
  (at level 61, m at next level, right associativity) : js_scope.
Notation "m ;; k" := (bind m (fun _ => k))
  (at level 61, right associativity) : js_scope.
Local Open Scope js_scope.

Definition final_state {A} (c : Completion A) : State :=
  match c with
  | Normal _ s => s
  | Throw _ s => s
  end.

(** ** Host operations *)

(** A method call on [audioContext]; a [TypeError] while the variable is
    still [undefined]. *)
Definition on_context {A} (f : BaseAudioContext -> A * BaseAudioContext)
  : M A :=
  fun s =>
    match audioContext s with
    | None => Throw TypeError s
    | Some c =>
        let (a, c') := f c in Normal a (with_audioContext (Some c') s)
    end.

(** A write to a property of the node [id]. *)
Definition on_node (id : NodeId) (f : AudioNode -> AudioNode) : M unit :=
  on_context (fun c => (tt, update_node id f c)).

Definition audioContext_createGain : M NodeId :=
  on_context (fun c =>
    add_node (GainNode {| value := gain_default (defaults c) |} []) c).

Definition audioContext_createBiquadFilter : M NodeId :=
  on_context (fun c =>
    add_node (BiquadFilterNode (biquad_type_default (defaults c))
                {| value := biquad_frequency_default (defaults c) |}
                {| value := biquad_Q_default (defaults c) |} []) c).

Definition audioContext_createOscillator : M NodeId :=
  on_context (fun c =>
    add_node (OscillatorNode (oscillator_type_default (defaults c))
                {| value := oscillator_frequency_default (defaults c) |} [])
             c).

(** [node.connect(target)]; the target is a variable that may still hold
    [undefined], which [connect] rejects. *)
Definition connect (node : NodeId) (target : option NodeId) : M unit :=
  match target with
  | None => throw TypeError
  | Some t => on_node node (add_output t)
  end.

(** [osc.start()]: an oscillator can be started once. *)
Definition osc_start (osc : NodeId) : M unit :=
  fun s =>
    match audioContext s with
    | None => Throw TypeError s
    | Some c =>
        if started osc c then Throw InvalidStateError s
        else Normal tt (with_audioContext (Some (add_call (Start osc) c)) s)
    end.

(** [osc.stop()]: only an oscillator that has been started can be stopped. *)
Definition osc_stop (osc : NodeId) : M unit :=
  fun s =>
    match audioContext s with
    | None => Throw TypeError s
    | Some c =>
        if started osc c
        then Normal tt (with_audioContext (Some (add_call (Stop osc) c)) s)
        else Throw InvalidStateError s
    end.

(** [target.addEventListener(type, callback)]: a listener already present is
    not added again. *)
Definition add_listener (l : Listener) (s : State) : State :=
  if existsb (Listener_eqb l) (listeners s) then s
  else with_listeners (listeners s ++ [l]) s.

Definition addEventListener (target : EventTarget) (type : string)
  (cb : Callback) : M unit :=
  modify (add_listener (target, type, cb)).

Definition remove_listener (l : Listener) (s : State) : State :=
  with_listeners
    (filter (fun l' => negb (Listener_eqb l l')) (listeners s)) s.

Definition removeEventListener (target : EventTarget) (type : string)
  (cb : Callback) : M unit :=
  modify (remove_listener (target, type, cb)).

Definition newline : string := String "010"%char "".

(** ** The script *)

Definition Math_pow (x y : R) : R := Rpower x y.
Definition Math_log (x : R) : R := ln x.

(** *** UI and such *)

Definition logStatus (message : string) : M unit :=
  modify (fun s => with_status (status s ++ message ++ newline)%string s).

(** [disableStartBtn({ btnText })]: the argument is [None] when the function
    is called without one, and destructuring [undefined] throws. *)
Definition disableStartBtn (arg : option (option string)) : M unit :=
  match arg with
  | None => throw TypeError
  | Some btnText =>
      modify (fun s =>
        with_startBtn {| disabled := true;
                         innerText := innerText (startBtn s) |} s);;
      match btnText with
      | Some text =>
          if String.eqb text "" then ret tt
          else modify (fun s =>
                 with_startBtn {| disabled := disabled (startBtn s);
                                  innerText := text |} s)
      | None => ret tt
      end
  end.

(** *** MIDI *)

Definition isNoteOn (statusByte : Z) : bool :=
  (statusByte >=? 144) && (statusByte <=? 159).

Definition isNoteOff (statusByte : Z) : bool :=
  (statusByte >=? 128) && (statusByte <=? 143).

Definition midiNoteToFreq (note : Z) : R :=
  (Math_pow 2 ((IZR note - 69) / 12) * 440)%R.

Definition midiVelocityToGain (velocity : Z) : R :=
  (Math_log (Math_pow 10 (IZR velocity)) / 292.4283068102438)%R.

(** A [midimessage] event carrying a three-byte message. *)
Record MIDIMessageEvent := {
  data : Z * Z * Z;
  target : MIDIPort
}.

(** The fields [printMessageInfo] renders for a message. *)
Definition messageInfo (message : MIDIMessageEvent) : MessageInfo :=
  let '(data0, data1, data2) := data message in
  let noteFreq :=
    if isNoteOn data0 || isNoteOff data0
    then Some (midiNoteToFreq data1) else None in
  {| info_target := name (target message);
     info_status := data0;
     info_data1 := data1;
     info_noteFreq := noteFreq;
     info_data2 := data2 |}.

Definition printMessageInfo (message : MIDIMessageEvent) : M unit :=
  modify (with_messages (Some (messageInfo message))).

(** *** WebAudio *)

Definition createFilter : M NodeId :=
  filter <- audioContext_createBiquadFilter;;
  on_node filter (assign_attribute "type" (JSString "lowpass"));;
  on_node filter (assign_attribute "frequency" (JSNumber 1000));;
  on_node filter (assign_attribute "Q" (JSNumber 8));;
  ret filter.

(** The class-based rewrite of the script (class [MidiSynth]) sets the two
    filter parameters through their [value]. *)
Module MidiSynthClass.
Definition createFilter : M NodeId :=
  filter <- audioContext_createBiquadFilter;;
  on_node filter (assign_attribute "type" (JSString "lowpass"));;
  on_node filter (set_frequency_value 1000);;
  on_node filter (set_Q_value 8);;
  ret filter.
End MidiSynthClass.

(** [window.AudioContext || window.webkitAudioContext] *)
Definition ACtx (w : Window) : option Defaults :=
  match AudioContext w with
  | Some ctor => Some ctor
  | None => webkitAudioContext w
  end.

Definition createAudio : M unit :=
  logStatus "Starting AudioContext...";;
  w <- gets window;;
  match ACtx w with
  | None => logStatus "No constructor for AudioContext found."
  | Some ctor =>
      modify (with_audioContext (Some (new_context ctor)));;
      g <- audioContext_createGain;;
      modify (with_masterGainNode (Some g));;
      on_node g (set_gain_value 0.5);;
      f <- createFilter;;
      modify (with_masterFilter (Some f));;
      connect g (Some f);;
      connect f (Some destination)
  end.

Definition createOscillator (frequency : R) : M NodeId :=
  osc <- audioContext_createOscillator;;
  on_node osc (assign_attribute "type" (JSString "square"));;
  on_node osc (set_frequency_value frequency);;
  ret osc.

Definition createGain (value : R) : M NodeId :=
  gainNode <- audioContext_createGain;;
  target <- gets masterGainNode;;
  connect gainNode target;;
  on_node gainNode (set_gain_value value);;
  ret gainNode.

Definition playNote (note velocity : Z) : M unit :=
  ctx <- gets audioContext;;
  match ctx with
  | None => ret tt
  | Some _ =>
      let freq := midiNoteToFreq note in
      osc <- createOscillator freq;;
      let gainVal := midiVelocityToGain velocity in
      gainNode <- createGain gainVal;;
      connect osc (Some gainNode);;
      modify (fun s =>
        with_pressedKeys (JSObject.set Z.eqb note osc (pressedKeys s)) s);;
      osc_start osc
  end.

Definition stopNote (note : Z) : M unit :=
  osc <- gets (fun s => JSObject.get Z.eqb note (pressedKeys s));;
  match osc with
  | None => ret tt
  | Some osc =>
      osc_stop osc;;
      modify (fun s =>
        with_pressedKeys (JSObject.delete Z.eqb note (pressedKeys s)) s)
  end.

Definition setMasterGain (value : R) : M unit :=
  g <- gets masterGainNode;;
  match g with
  | Some g => on_node g (set_gain_value value)
  | None => ret tt
  end.

Definition setMasterFilterFreq (data : Z) : M unit :=
  f <- gets masterFilter;;
  match f with
  | Some f => on_node f (set_frequency_value (IZR data / 64 * 1000))
  | None => ret tt
  end.

(** *** MIDI callbacks *)

Definition when (b : bool) (m : M unit) : M unit :=
  if b then m else ret tt.

Definition onMidiMessage (message : MIDIMessageEvent) : M unit :=
  printMessageInfo message;;
  let '(statusByte, data1, data2) := data message in
  when (isNoteOn statusByte) (playNote data1 data2);;
  when (isNoteOff statusByte) (stopNote data1);;
  when (statusByte =? 176)
    (if data1 =? 1 then ret tt
     else if data1 =? 7 then setMasterGain (IZR data2 / 127)
     else ret tt);;
  when (statusByte =? 224) (setMasterFilterFreq data2).

(** [midiPorts[k]] read as a condition: true for an own property (the stored
    port object) and for a name inherited from [Object.prototype]. *)
Definition midiPorts_truthy (k : string) (s : State) : bool :=
  match JSObject.get String.eqb k (midiPorts s) with
  | Some _ => true
  | None => JSObject.inherited k
  end.

Definition enableMidiInput (input : MIDIPort) : M unit :=
  known <- gets (midiPorts_truthy (name input));;
  if known then ret tt
  else
    logStatus ("Found MIDI input: '" ++ name input ++ "'")%string;;
    addEventListener (PortTarget (port_id input)) "statechange"
      cb_onStateChange;;
    addEventListener (PortTarget (port_id input)) "midimessage"
      cb_onMidiMessage;;
    modify (fun s =>
      with_midiPorts
        (JSObject.set String.eqb (name input) input (midiPorts s)) s).

Definition disableMidiInput (input : MIDIPort) : M unit :=
  known <- gets (midiPorts_truthy (name input));;
  if negb known then ret tt
  else
    logStatus ("Disabling MIDI input: '" ++ name input ++ "'")%string;;
    removeEventListener (PortTarget (port_id input)) "statechange"
      cb_onStateChange;;
    removeEventListener (PortTarget (port_id input)) "midimessage"
      cb_onMidiMessage;;
    modify (fun s =>
      with_midiPorts
        (JSObject.delete String.eqb (name input) (midiPorts s)) s).

(** The rewrite of the script that starts from [init()] keeps no registry of
    ports: its [enableMidiInput] subscribes whatever port it is given. *)
Module InitScript.
Definition enableMidiInput (input : MIDIPort) : M unit :=
  logStatus ("Found MIDI input: '" ++ name input ++ "'")%string;;
  addEventListener (PortTarget (port_id input)) "statechange"
    cb_onStateChange;;
  addEventListener (PortTarget (port_id input)) "midimessage"
    cb_onMidiMessage.
End InitScript.

Definition onStateChange (port : MIDIPort) : M unit :=
  logStatus ("State change: " ++ name port ++ ", " ++ port_state port)%string;;
  if String.eqb (port_type port) "input" then
    if String.eqb (port_state port) "connected" then enableMidiInput port
    else if String.eqb (port_state port) "disconnected"
         then disableMidiInput port
    else ret tt
  else ret tt.

Fixpoint forEach {A} (f : A -> M unit) (l : list A) : M unit :=
  match l with
  | [] => ret tt
  | x :: l' => f x;; forEach f l'
  end.

(** The two outcomes of [setupMidi] once [requestMIDIAccess] settles. *)
Definition setupMidi_resolved (inputs : list MIDIPort) : M unit :=
  addEventListener AccessTarget "statechange" cb_onStateChange;;
  forEach enableMidiInput inputs.

Definition setupMidi_rejected (message : string) : M unit :=
  logStatus ("Error setting up MIDI: " ++ message)%string.

Definition onStartBtnClick : M unit :=
  createAudio;;
  disableStartBtn (Some (Some "Synth Running")).

(** [onDomContentLoaded]; the argument tells whether
    [navigator.requestMIDIAccess] exists.  [setupMidi] runs up to its
    [await] and continues in [setupMidi_resolved] or [setupMidi_rejected]. *)
Definition onDomContentLoaded (requestMIDIAccess : bool) : M unit :=
  if negb requestMIDIAccess then
    logStatus "No MIDI support available.";;
    disableStartBtn None
  else
    logStatus "Setting up MIDI...";;
    addEventListener ButtonTarget "click" cb_onStartBtnClick.

(** ** The event loop *)

(** Everything the page reacts to.  Each event is handled to completion
    before the next one. *)
Inductive Event :=
| DOMContentLoaded (requestMIDIAccess : bool)
| MIDIAccessResolved (inputs : list MIDIPort)
| MIDIAccessRejected (message : string)
| StateChangeEvent (port : MIDIPort)
| MidiMessageEvent (message : MIDIMessageEvent)
| ClickEvent.

Definition registered (l : Listener) (s : State) : bool :=
  existsb (Listener_eqb l) (listeners s).

(** Dispatch to one target: the callback runs if it is registered there.  An
    exception ends the callback and is reported; the page goes on. *)
Definition fire (tgt : EventTarget) (type : string) (cb : Callback)
  (run : M unit) (s : State) : State :=
  if registered (tgt, type, cb) s then final_state (run s) else s.

Definition step (s : State) (e : Event) : State :=
  match e with
  | DOMContentLoaded nav => final_state (onDomContentLoaded nav s)
  | MIDIAccessResolved inputs => final_state (setupMidi_resolved inputs s)
  | MIDIAccessRejected message => final_state (setupMidi_rejected message s)
  | StateChangeEvent port =>
      fire AccessTarget "statechange" cb_onStateChange (onStateChange port)
        (fire (PortTarget (port_id port)) "statechange" cb_onStateChange
           (onStateChange port) s)
  | MidiMessageEvent message =>
      fire (PortTarget (port_id (target message))) "midimessage"
        cb_onMidiMessage (onMidiMessage message) s
  | ClickEvent =>
      if disabled (startBtn s) then s
      else fire ButtonTarget "click" cb_onStartBtnClick onStartBtnClick s
  end.

Definition run (events : list Event) (s : State) : State :=
  fold_left step events s.

(** The states the page can be in. *)
Definition Reachable (s : State) : Prop :=
  exists w events, s = run events (initial w).

(** The two states of the session: Idle until an audio context exists,
    Running from then on. *)
Definition isRunning (s : State) : bool :=
  match audioContext s with
  | Some _ => true
  | None => false
  end.

(** ** The specification's vocabulary *)

(** The typed event of the specification's decoder. *)
Inductive MidiEvent :=
| NoteOn (note velocity : Z)
| NoteOff (note : Z)
| ControlChange (controller value : Z)
| PitchBend (value : Z)
| Other.

(** The decoder as the specification words it: classification by the range
    of the status byte alone. *)
Inductive Classified (statusByte data1 data2 : Z) : MidiEvent -> Prop :=
| classified_NoteOn :
    144 <= statusByte <= 159 ->
    Classified statusByte data1 data2 (NoteOn data1 data2)
| classified_NoteOff :
    128 <= statusByte <= 143 ->
    Classified statusByte data1 data2 (NoteOff data1)
| classified_ControlChange :
    statusByte = 176 ->
    Classified statusByte data1 data2 (ControlChange data1 data2)
| classified_PitchBend :
    statusByte = 224 ->
    Classified statusByte data1 data2 (PitchBend data2)
| classified_Other :
    ~ 128 <= statusByte <= 159 -> statusByte <> 176 -> statusByte <> 224 ->
    Classified statusByte data1 data2 Other.

Definition decode (statusByte data1 data2 : Z) : MidiEvent :=
  if (144 <=? statusByte) && (statusByte <=? 159) then NoteOn data1 data2
  else if (128 <=? statusByte) && (statusByte <=? 143) then NoteOff data1
  else if statusByte =? 176 then ControlChange data1 data2
  else if statusByte =? 224 then PitchBend data2
  else Other.

Definition controlVolumeToGain (value : Z) : R := (IZR value / 127)%R.

Definition pitchBendToFilterCutoff (value : Z) : R :=
  (IZR value / 64 * 1000)%R.

(** The Session Controller of the specification: what each typed event does,
    in terms of the script's functions. *)
Definition handle (e : MidiEvent) : M unit :=
  match e with
  | NoteOn note velocity => playNote note velocity
  | NoteOff note => stopNote note
  | ControlChange controller value =>
      if controller =? 7 then setMasterGain (controlVolumeToGain value)
      else ret tt
  | PitchBend value => setMasterFilterFreq value
  | Other => ret tt
  end.

(** The velocity curve as the specification writes it. *)
Definition velocityToGain_spec (velocity : Z) : R :=
  (ln (Rpower 10 (IZR velocity)) / 292.4283068102438)%R.

(** ** Derived notions used by the statements *)

(** The two nodes [playNote] adds to a context: a square oscillator at the
    note's frequency feeding a gain stage set from the velocity, which feeds
    the master gain. *)
Definition voice_nodes (note velocity : Z) (master : NodeId)
  (c : BaseAudioContext) : list AudioNode :=
  [ OscillatorNode "square" {| value := midiNoteToFreq note |}
      [S (List.length (nodes c))];
    GainNode {| value := midiVelocityToGain velocity |} [master] ].

Definition with_voice (note velocity : Z) (master : NodeId)
  (c : BaseAudioContext) : BaseAudioContext :=
  {| defaults := defaults c;
     nodes := nodes c ++ voice_nodes note velocity master c;
     calls := calls c ++ [Start (List.length (nodes c))] |}.

(** The context [createAudio] leaves behind: the destination, the master
    gain set to 0.5 and feeding the filter, and the filter feeding the
    destination.  The filter's [frequency] and [Q] parameters hold what the
    engine created them with. *)
Definition master_context (ctor : Defaults) : BaseAudioContext :=
  {| defaults := ctor;
     nodes :=
       [ AudioDestinationNode;
         GainNode {| value := 0.5 |} [2%nat];
         BiquadFilterNode "lowpass"
           {| value := biquad_frequency_default ctor |}
           {| value := biquad_Q_default ctor |} [destination] ];
     calls := [] |}.

(** Number of [stop] commands a context has received. *)
Definition stops (c : BaseAudioContext) : nat :=
  List.length (filter isStop (calls c)).

Definition call_id (k : Call) : NodeId :=
  match k with
  | Start i => i
  | Stop i => i
  end.

(** How many times a listener is registered. *)
Definition occurrences (l : Listener) (s : State) : nat :=
  List.length (filter (Listener_eqb l) (listeners s)).

(** The subscriptions of the port object [id] to the message intake. *)
Definition subscriptions (id : PortId) (s : State) : nat :=
  occurrences (PortTarget id, "midimessage", cb_onMidiMessage) s.

(** The master channel of a context: node 1 is the master gain feeding
    node 2, node 2 is the low-pass filter feeding the destination, and the
    filter's [Q] holds what the engine created it with. *)
Definition master_wired (c : BaseAudioContext) : Prop :=
  (exists v, nth_error (nodes c) 1 = Some (GainNode {| value := v |} [2%nat]))
  /\
  (exists f, nth_error (nodes c) 2
             = Some (BiquadFilterNode "lowpass" {| value := f |}
                       {| value := biquad_Q_default (defaults c) |}
                       [destination])).

(** What holds of every state the page can reach. *)
Record Inv (s : State) : Prop := {
  inv_idle :
    audioContext s = None ->
    masterGainNode s = None /\ masterFilter s = None /\
    pressedKeys s = JSObject.empty;
  inv_running :
    forall c, audioContext s = Some c ->
    (exists g, masterGainNode s = Some g) /\
    (exists f, masterFilter s = Some f) /\
    disabled (startBtn s) = true;
  inv_master :
    forall c, audioContext s = Some c ->
    masterGainNode s = Some 1%nat /\ masterFilter s = Some 2%nat /\
    master_wired c;
  inv_calls :
    forall c k, audioContext s = Some c -> In k (calls c) ->
    (call_id k < List.length (nodes c))%nat;
  inv_voices :
    forall c note osc, audioContext s = Some c ->
    JSObject.get Z.eqb note (pressedKeys s) = Some osc ->
    started osc c = true;
  inv_keys : JSObject.unique_keys Z.eqb (pressedKeys s);
  inv_ports : JSObject.unique_keys String.eqb (midiPorts s);
  inv_listeners : forall l, (occurrences l s <= 1)%nat
}.

(** A sample session: a browser with the standard audio engine, one
    keyboard, the page loaded, MIDI access granted and the start button
    clicked. *)
Definition example_window : Window :=
  {| AudioContext := Some WebAudio; webkitAudioContext := None |}.

Definition example_keyboard : MIDIPort :=
  {| port_id := 1%nat; name := "Keyboard";
     port_type := "input"; port_state := "connected" |}.

Definition example_idle : State :=
  run [DOMContentLoaded true; MIDIAccessResolved [example_keyboard]]
      (initial example_window).

Definition example_running : State :=
  run [ClickEvent] example_idle.

(** A second input whose system name is the name of a member of
    [Object.prototype]. *)
Definition constructor_port : MIDIPort :=
  {| port_id := 2%nat; name := "constructor";
     port_type := "input"; port_state := "connected" |}.

(** The sample session with key 60 held. *)
Definition example_playing : State :=
  run [MidiMessageEvent {| data := (144, 60, 90);
                           target := example_keyboard |}]
      example_running.

(** A computation keeps a property of the state, however it ends. *)
Definition preserves {A} (P : State -> Prop) (m : M A) : Prop :=
  forall s, P s -> P (final_state (m s)).

(** ** The rewrite with an else-if chain *)

(** The first rewrite in [src/unnamed/part_000] (and the class after it)
    dispatches a message through one [if ... else if ...] chain instead of
    four separate tests. *)
Module ElseIfScript.
Definition onMidiMessage (message : MIDIMessageEvent) : M unit :=
  printMessageInfo message;;
  let '(statusByte, data1, data2) := data message in
  if isNoteOn statusByte then playNote data1 data2
  else if isNoteOff statusByte then stopNote data1
  else if statusByte =? 176 then
    (if data1 =? 1 then ret tt
     else if data1 =? 7 then setMasterGain (IZR data2 / 127)
     else ret tt)
  else if statusByte =? 224 then setMasterFilterFreq data2
  else ret tt.
End ElseIfScript.

(** ** The audio side of the state *)

(** The variables the audio functions read and write. *)
Record AudioState := {
  a_window : Window;
  a_context : option BaseAudioContext;
  a_gain : option NodeId;
  a_filter : option NodeId;
  a_keys : JSObject.t (K := Z) (V := NodeId)
}.

Definition audio (s : State) : AudioState :=
  {| a_window := window s; a_context := audioContext s;
     a_gain := masterGainNode s; a_filter := masterFilter s;
     a_keys := pressedKeys s |}.

(** The ways one event can change the audio side: not at all, by creating
    the context, by adding a voice, by stopping a registered voice, or by
    writing the master gain or the filter cutoff. *)
Inductive AudioStep : AudioState -> AudioState -> Prop :=
| audio_same (a : AudioState) : AudioStep a a
| audio_start (w : Window) (ctor : Defaults) :
    ACtx w = Some ctor ->
    AudioStep
      {| a_window := w; a_context := None; a_gain := None;
         a_filter := None; a_keys := JSObject.empty |}
      {| a_window := w; a_context := Some (master_context ctor);
         a_gain := Some 1%nat; a_filter := Some 2%nat;
         a_keys := JSObject.empty |}
| audio_noteOn (w : Window) (c : BaseAudioContext) (g : NodeId)
    (f : option NodeId) (keys : JSObject.t) (note velocity : Z) :
    started (List.length (nodes c)) c = false ->
    AudioStep
      {| a_window := w; a_context := Some c; a_gain := Some g;
         a_filter := f; a_keys := keys |}
      {| a_window := w; a_context := Some (with_voice note velocity g c);
         a_gain := Some g; a_filter := f;
         a_keys := JSObject.set Z.eqb note (List.length (nodes c)) keys |}
| audio_noteOff (w : Window) (c : BaseAudioContext) (g f : option NodeId)
    (keys : JSObject.t) (note : Z) (osc : NodeId) :
    JSObject.get Z.eqb note keys = Some osc ->
    started osc c = true ->
    AudioStep
      {| a_window := w; a_context := Some c; a_gain := g;
         a_filter := f; a_keys := keys |}
      {| a_window := w; a_context := Some (add_call (Stop osc) c);
         a_gain := g; a_filter := f;
         a_keys := JSObject.delete Z.eqb note keys |}
| audio_gain (w : Window) (c : BaseAudioContext) (g : NodeId)
    (f : option NodeId) (keys : JSObject.t) (v : R) :
    AudioStep
      {| a_window := w; a_context := Some c; a_gain := Some g;
         a_filter := f; a_keys := keys |}
      {| a_window := w;
         a_context := Some (update_node g (set_gain_value v) c);
         a_gain := Some g; a_filter := f; a_keys := keys |}
| audio_cutoff (w : Window) (c : BaseAudioContext) (g : option NodeId)
    (f : NodeId) (keys : JSObject.t) (x : R) :
    AudioStep
      {| a_window := w; a_context := Some c; a_gain := g;
         a_filter := Some f; a_keys := keys |}
      {| a_window := w;
         a_context := Some (update_node f (set_frequency_value x) c);
         a_gain := g; a_filter := Some f; a_keys := keys |}.

(** The rest of the state a MIDI message could touch and does not. *)
Definition same_page (s s' : State) : Prop :=
  midiPorts s' = midiPorts s /\ listeners s' = listeners s /\
  status s' = status s /\ startBtn s' = startBtn s.

(** The registry holds the oscillator [osc] under some note. *)
Definition held (osc : NodeId) (keys : JSObject.t (K := Z) (V := NodeId))
  : bool :=
  existsb (fun kv => Nat.eqb (snd kv) osc) keys.

(** The engine has been told to stop the oscillator [osc]. *)
Definition stopped (osc : NodeId) (c : BaseAudioContext) : bool :=
  existsb (Call_eqb (Stop osc)) (calls c).

(** How the engine's command log relates to the registry: no command is
    repeated, a [stop] follows a [start] of the same oscillator, a stopped
    oscillator is no longer registered, no oscillator is registered under
    two notes, and every command and every entry names an existing node. *)
Record LogOk (a : AudioState) : Prop := {
  log_idle : a_context a = None -> a_keys a = JSObject.empty;
  log_nodup : forall c, a_context a = Some c -> NoDup (calls c);
  log_bound :
    forall c k, a_context a = Some c -> In k (calls c) ->
    (call_id k < List.length (nodes c))%nat;
  log_order :
    forall c before after osc, a_context a = Some c ->
    calls c = before ++ Stop osc :: after -> In (Start osc) before;
  log_released :
    forall c osc, a_context a = Some c ->
    In (Stop osc) (calls c) -> held osc (a_keys a) = false;
  log_sounding :
    forall c osc, a_context a = Some c ->
    held osc (a_keys a) = true -> In (Start osc) (calls c);
  log_distinct : NoDup (map snd (a_keys a))
}.

(** An oscillator that sounds and that the registry no longer holds. *)
Definition Orphan (osc : NodeId) (a : AudioState) : Prop :=
  exists c,
    a_context a = Some c /\ started osc c = true /\
    stopped osc c = false /\ held osc (a_keys a) = false.

(** The session keeps the context [c] it had: the same engine, its nodes
    and its command log extended, and the same window and master
    variables. *)
Definition Extends (a0 : AudioState) (c : BaseAudioContext)
  (a : AudioState) : Prop :=
  exists c',
    a_context a = Some c' /\ defaults c' = defaults c /\
    (List.length (nodes c) <= List.length (nodes c'))%nat /\
    (exists l, calls c' = calls c ++ l) /\
    a_window a = a_window a0 /\ a_gain a = a_gain a0 /\
    a_filter a = a_filter a0.

(** A browser without an audio engine. *)
Definition bare_window : Window :=
  {| AudioContext := None; webkitAudioContext := None |}.

(** Two port objects that carry the same name, as two keyboards of one
    model do. *)
Definition twin_a : MIDIPort :=
  {| port_id := 7%nat; name := "Twin";
     port_type := "input"; port_state := "connected" |}.

Definition twin_b : MIDIPort :=
  {| port_id := 8%nat; name := "Twin";
     port_type := "input"; port_state := "disconnected" |}.

(** The sample session after key 60 was pressed twice without a release. *)
Definition example_doubled : State :=
  run [MidiMessageEvent {| data := (144, 60, 70);
                           target := example_keyboard |}]
      example_playing.

(** * Properties *)

(** ** Objects as maps *)

Module JSObjectFacts.
Import JSObject.
Section Facts.
Context {K V : Type} (eqb : K -> K -> bool).
Hypothesis eqb_eq : forall a b, eqb a b = true <-> a = b.

Let obj := t (K := K) (V := V).

Lemma eqb_same k : eqb k k = true.
Proof. now apply eqb_eq. Qed.

Lemma eqb_other k k' : k <> k' -> eqb k k' = false.
Proof.
  intro H. destruct (eqb k k') eqn:E; [|reflexivity].
  apply eqb_eq in E. contradiction.
Qed.

Lemma get_set_same k v (o : obj) : get eqb k (set eqb k v o) = Some v.
Proof.
  induction o as [|[k' v'] o IH]; cbn.
  - now rewrite eqb_same.
  - destruct (eqb k k') eqn:E; cbn; rewrite ?eqb_same, ?E; auto.
Qed.

Lemma get_set_other k k' v (o : obj) :
  k <> k' -> get eqb k (set eqb k' v o) = get eqb k o.
Proof.
  intro H. induction o as [|[k1 v1] o IH]; cbn.
  - now rewrite eqb_other.
  - destruct (eqb k' k1) eqn:E; cbn.
    + apply eqb_eq in E. subst k1. now rewrite eqb_other.
    + now rewrite IH.
Qed.

Lemma get_delete_same k (o : obj) : get eqb k (delete eqb k o) = None.
Proof.
  induction o as [|[k' v'] o IH]; cbn; [reflexivity|].
  destruct (eqb k k') eqn:E; cbn; rewrite ?E; auto.
Qed.

Lemma get_delete_other k k' (o : obj) :
  k <> k' -> get eqb k (delete eqb k' o) = get eqb k o.
Proof.
  intro H. induction o as [|[k1 v1] o IH]; cbn; [reflexivity|].
  destruct (eqb k' k1) eqn:E; cbn.
  - apply eqb_eq in E. subst k1. now rewrite eqb_other.
  - now rewrite IH.
Qed.

Lemma delete_absent k (o : obj) :
  get eqb k o = None -> delete eqb k o = o.
Proof.
  induction o as [|[k' v'] o IH]; cbn; [reflexivity|].
  destruct (eqb k k'); [discriminate|]. intro H. now rewrite IH.
Qed.

Lemma entries_absent k (o : obj) :
  get eqb k o = None -> entries eqb k o = 0%nat.
Proof.
  unfold entries.
  induction o as [|[k' v'] o IH]; cbn; [reflexivity|].
  destruct (eqb k k'); [discriminate|]. exact IH.
Qed.

Lemma entries_present k v (o : obj) :
  get eqb k o = Some v -> (1 <= entries eqb k o)%nat.
Proof.
  unfold entries.
  induction o as [|[k' v'] o IH]; cbn; [discriminate|].
  destruct (eqb k k'); cbn; [lia|]. exact IH.
Qed.

Lemma entries_set_same k v (o : obj) :
  entries eqb k (set eqb k v o) = Nat.max 1 (entries eqb k o).
Proof.
  unfold entries.
  induction o as [|[k' v'] o IH]; cbn.
  - now rewrite eqb_same.
  - destruct (eqb k k') eqn:E; cbn; rewrite ?eqb_same, ?E; cbn.
    + lia.
    + exact IH.
Qed.

Lemma entries_set_other k k' v (o : obj) :
  k <> k' -> entries eqb k (set eqb k' v o) = entries eqb k o.
Proof.
  intro H. unfold entries.
  induction o as [|[k1 v1] o IH]; cbn.
  - now rewrite eqb_other.
  - destruct (eqb k' k1) eqn:E; cbn.
    + apply eqb_eq in E. subst k1. now rewrite eqb_other.
    + destruct (eqb k k1); cbn; congruence.
Qed.

Lemma entries_delete_same k (o : obj) :
  entries eqb k (delete eqb k o) = 0%nat.
Proof. apply entries_absent, get_delete_same. Qed.

Lemma entries_delete_other k k' (o : obj) :
  k <> k' -> entries eqb k (delete eqb k' o) = entries eqb k o.
Proof.
  intro H. unfold entries.
  induction o as [|[k1 v1] o IH]; cbn; [reflexivity|].
  destruct (eqb k' k1) eqn:E; cbn.
  - apply eqb_eq in E. subst k1. now rewrite eqb_other.
  - destruct (eqb k k1); cbn; congruence.
Qed.

Lemma unique_keys_empty : unique_keys eqb (empty : obj).
Proof. intro k. cbv. lia. Qed.

Lemma unique_keys_set k v (o : obj) :
  unique_keys eqb o -> unique_keys eqb (set eqb k v o).
Proof.
  intros H k'. specialize (H k').
  destruct (eqb k' k) eqn:E.
  - apply eqb_eq in E. subst k'. rewrite entries_set_same. lia.
  - rewrite entries_set_other; [exact H|].
    intro F. apply eqb_eq in F. congruence.
Qed.

Lemma unique_keys_delete k (o : obj) :
  unique_keys eqb o -> unique_keys eqb (delete eqb k o).
Proof.
  intros H k'. specialize (H k').
  destruct (eqb k' k) eqn:E.
  - apply eqb_eq in E. subst k'. rewrite entries_delete_same. lia.
  - rewrite entries_delete_other; [exact H|].
    intro F. apply eqb_eq in F. congruence.
Qed.
End Facts.
End JSObjectFacts.

(** ** The node store *)

Lemma update_nth_length {A} (i : nat) (f : A -> A) (l : list A) :
  List.length (update_nth i f l) = List.length l.
Proof.
  revert i. induction l as [|x l IH]; intros [|i]; cbn; auto.
Qed.

Lemma update_nth_last {A} (f : A -> A) (l : list A) (x : A) (r : list A) :
  update_nth (List.length l) f (l ++ x :: r) = l ++ f x :: r.
Proof.
  induction l as [|y l IH]; cbn; [reflexivity|]. now rewrite IH.
Qed.

Lemma update_nth_last1 {A} (f : A -> A) (l : list A) (x y : A) :
  update_nth (S (List.length l)) f (l ++ [x; y]) = l ++ [x; f y].
Proof.
  induction l as [|z l IH]; [reflexivity|].
  cbn [List.length app update_nth]. f_equal. exact IH.
Qed.

Lemma nth_error_update_nth_other {A} (i j : nat) (f : A -> A) (l : list A) :
  i <> j -> nth_error (update_nth i f l) j = nth_error l j.
Proof.
  revert i j. induction l as [|x l IH]; intros [|i] [|j] H; cbn; auto;
    try contradiction; try (apply IH; lia).
Qed.

Lemma nth_error_update_nth_same {A} (i : nat) (f : A -> A) (l : list A) :
  nth_error (update_nth i f l) i = option_map f (nth_error l i).
Proof.
  revert i. induction l as [|x l IH]; intros [|i]; cbn; auto.
Qed.

Lemma length_snoc {A} (l : list A) (x : A) :
  List.length (l ++ [x]) = S (List.length l).
Proof. rewrite length_app. cbn. lia. Qed.

(** ** The engine's command log *)

Lemma Call_eqb_eq (a b : Call) : Call_eqb a b = true <-> a = b.
Proof.
  destruct a, b; cbn; rewrite ?Nat.eqb_eq; split; intro H;
    try discriminate; try (injection H as H); subst; auto.
Qed.

Lemma started_In (osc : NodeId) (c : BaseAudioContext) :
  started osc c = true <-> In (Start osc) (calls c).
Proof.
  unfold started. rewrite existsb_exists. split.
  - intros [k [Hin Hk]]. apply Call_eqb_eq in Hk. now subst.
  - intro H. exists (Start osc). split; [exact H|]. now apply Call_eqb_eq.
Qed.

Lemma fresh_not_started (c : BaseAudioContext) :
  (forall k, In k (calls c) -> (call_id k < List.length (nodes c))%nat) ->
  started (List.length (nodes c)) c = false.
Proof.
  intro H. destruct (started _ c) eqn:E; [|reflexivity].
  apply started_In in E. apply H in E. cbn in E. lia.
Qed.

Lemma stops_add_Stop (osc : NodeId) (c : BaseAudioContext) :
  stops (add_call (Stop osc) c) = S (stops c).
Proof.
  unfold stops, add_call. cbn. rewrite filter_app, length_app. cbn. lia.
Qed.

Lemma stops_with_voice note velocity g (c : BaseAudioContext) :
  stops (with_voice note velocity g c) = stops c.
Proof.
  unfold stops, with_voice. cbn. rewrite filter_app, length_app. cbn. lia.
Qed.

(** ** What each function of the script does *)

(** Unfolds the monad and the host operations, then projects the fields. *)
Ltac run_script :=
  cbv [bind ret gets modify throw when on_context on_node connect
       audioContext_createGain audioContext_createBiquadFilter
       audioContext_createOscillator osc_start osc_stop
       addEventListener removeEventListener logStatus
       add_node update_node add_call started registered
       with_audioContext with_masterGainNode with_masterFilter
       with_midiPorts with_pressedKeys with_listeners with_status
       with_messages with_startBtn final_state];
  cbn [window audioContext masterGainNode masterFilter midiPorts
       pressedKeys listeners status messages startBtn
       defaults nodes calls fst snd].

Lemma playNote_idle (s : State) (note velocity : Z) :
  audioContext s = None -> playNote note velocity s = Normal tt s.
Proof.
  intro H. unfold playNote. run_script. now rewrite H.
Qed.

Lemma playNote_running (s : State) (c : BaseAudioContext) (g : NodeId)
  (note velocity : Z) :
  audioContext s = Some c ->
  masterGainNode s = Some g ->
  started (List.length (nodes c)) c = false ->
  playNote note velocity s =
  Normal tt
    (with_pressedKeys
       (JSObject.set Z.eqb note (List.length (nodes c)) (pressedKeys s))
       (with_audioContext (Some (with_voice note velocity g c)) s)).
Proof.
  intros Hc Hg Hfresh.
  destruct s; cbn in Hc, Hg; subst.
  unfold playNote, createOscillator, createGain. run_script.
  unfold started in Hfresh. rewrite Hfresh.
  rewrite !update_nth_last. cbn -[midiNoteToFreq midiVelocityToGain].
  rewrite length_snoc, <- app_assoc. cbn [app].
  rewrite ?update_nth_last1, ?update_nth_last.
  reflexivity.
Qed.

Lemma stopNote_absent (s : State) (note : Z) :
  JSObject.get Z.eqb note (pressedKeys s) = None ->
  stopNote note s = Normal tt s.
Proof.
  intro H. unfold stopNote. run_script. now rewrite H.
Qed.

Lemma stopNote_present (s : State) (c : BaseAudioContext) (note : Z)
  (osc : NodeId) :
  JSObject.get Z.eqb note (pressedKeys s) = Some osc ->
  audioContext s = Some c ->
  started osc c = true ->
  stopNote note s =
  Normal tt
    (with_pressedKeys (JSObject.delete Z.eqb note (pressedKeys s))
       (with_audioContext (Some (add_call (Stop osc) c)) s)).
Proof.
  intros Hk Hc Hs.
  destruct s; cbn in Hk, Hc; subst.
  unfold stopNote. run_script. rewrite Hk. run_script.
  unfold started in Hs. rewrite Hs. reflexivity.
Qed.

Lemma setMasterGain_idle (s : State) (v : R) :
  masterGainNode s = None -> setMasterGain v s = Normal tt s.
Proof.
  intro H. unfold setMasterGain. run_script. now rewrite H.
Qed.

Lemma setMasterGain_running (s : State) (c : BaseAudioContext) (g : NodeId)
  (v : R) :
  audioContext s = Some c -> masterGainNode s = Some g ->
  setMasterGain v s =
  Normal tt (with_audioContext (Some (update_node g (set_gain_value v) c)) s).
Proof.
  intros Hc Hg. destruct s; cbn in Hc, Hg; subst.
  unfold setMasterGain. run_script. reflexivity.
Qed.

Lemma setMasterFilterFreq_idle (s : State) (d : Z) :
  masterFilter s = None -> setMasterFilterFreq d s = Normal tt s.
Proof.
  intro H. unfold setMasterFilterFreq. run_script. now rewrite H.
Qed.

Lemma setMasterFilterFreq_running (s : State) (c : BaseAudioContext)
  (f : NodeId) (d : Z) :
  audioContext s = Some c -> masterFilter s = Some f ->
  setMasterFilterFreq d s =
  Normal tt
    (with_audioContext
       (Some (update_node f
                (set_frequency_value (pitchBendToFilterCutoff d)) c)) s).
Proof.
  intros Hc Hf. destruct s; cbn in Hc, Hf; subst.
  unfold setMasterFilterFreq. run_script. reflexivity.
Qed.

(** ** The master channel's nodes *)

Lemma master_wired_master_context (ctor : Defaults) :
  master_wired (master_context ctor).
Proof. split; eexists; reflexivity. Qed.

Lemma master_wired_with_voice (note velocity : Z) (g : NodeId)
  (c : BaseAudioContext) :
  master_wired c -> master_wired (with_voice note velocity g c).
Proof.
  intros [[v Hv] [f Hf]]. split; cbn [nodes defaults with_voice].
  - exists v. rewrite nth_error_app1; [exact Hv|].
    apply nth_error_Some. congruence.
  - exists f. rewrite nth_error_app1; [exact Hf|].
    apply nth_error_Some. congruence.
Qed.

Lemma master_wired_set_gain (v : R) (c : BaseAudioContext) :
  master_wired c -> master_wired (update_node 1%nat (set_gain_value v) c).
Proof.
  intros [[v0 Hv] [f Hf]]. split; cbn [nodes defaults update_node].
  - exists v. rewrite nth_error_update_nth_same, Hv. reflexivity.
  - exists f. rewrite nth_error_update_nth_other by lia. exact Hf.
Qed.

Lemma master_wired_set_frequency (x : R) (c : BaseAudioContext) :
  master_wired c -> master_wired (update_node 2%nat (set_frequency_value x) c).
Proof.
  intros [[v Hv] [f Hf]]. split; cbn [nodes defaults update_node].
  - exists v. rewrite nth_error_update_nth_other by lia. exact Hv.
  - exists x. rewrite nth_error_update_nth_same, Hf. reflexivity.
Qed.

(** ** The invariant *)

Lemma preserves_ret {A} (P : State -> Prop) (a : A) : preserves P (ret a).
Proof. intros s H. exact H. Qed.

Lemma preserves_throw {A} (P : State -> Prop) (e : Error) :
  preserves P (throw e : M A).
Proof. intros s H. exact H. Qed.

Lemma preserves_gets {A} (P : State -> Prop) (f : State -> A) :
  preserves P (gets f).
Proof. intros s H. exact H. Qed.

Lemma preserves_bind {A B} (P : State -> Prop) (m : M A) (k : A -> M B) :
  preserves P m -> (forall a, preserves P (k a)) -> preserves P (bind m k).
Proof.
  intros Hm Hk s H. unfold bind. specialize (Hm s H).
  destruct (m s) as [a s'|e s']; cbn in Hm.
  - apply Hk, Hm.
  - exact Hm.
Qed.

Lemma preserves_when (P : State -> Prop) (b : bool) (m : M unit) :
  preserves P m -> preserves P (when b m).
Proof. intro H. destruct b; [exact H|apply preserves_ret]. Qed.

Lemma preserves_forEach {A} (P : State -> Prop) (f : A -> M unit)
  (l : list A) :
  (forall x, preserves P (f x)) -> preserves P (forEach f l).
Proof.
  intro H. induction l as [|x l IH]; cbn.
  - apply preserves_ret.
  - apply preserves_bind; auto.
Qed.

(** The invariant only reads the audio variables, the two registries, the
    listener lists and the button. *)
Lemma Inv_ext (s s' : State) :
  audioContext s' = audioContext s ->
  masterGainNode s' = masterGainNode s ->
  masterFilter s' = masterFilter s ->
  pressedKeys s' = pressedKeys s ->
  midiPorts s' = midiPorts s ->
  listeners s' = listeners s ->
  disabled (startBtn s') = disabled (startBtn s) ->
  Inv s -> Inv s'.
Proof.
  intros Ha Hg Hf Hk Hp Hl Hb [I1 I2 I8 I3 I4 I5 I6 I7].
  constructor; unfold occurrences in *;
    rewrite ?Ha, ?Hg, ?Hf, ?Hk, ?Hp, ?Hl, ?Hb; assumption.
Qed.

Lemma Inv_logStatus (message : string) : preserves Inv (logStatus message).
Proof. intros s H. apply (Inv_ext s); auto. Qed.

Lemma Inv_printMessageInfo (message : MIDIMessageEvent) :
  preserves Inv (printMessageInfo message).
Proof.
  intros s H. apply (Inv_ext s); auto.
Qed.

Lemma Inv_initial (w : Window) : Inv (initial w).
Proof.
  constructor; cbn; try discriminate; auto; intro k; cbv; lia.
Qed.

Lemma started_add_call (osc : NodeId) (k : Call) (c : BaseAudioContext) :
  started osc c = true -> started osc (add_call k c) = true.
Proof.
  rewrite !started_In. cbn. intro H. apply in_or_app. now left.
Qed.

Lemma Inv_playNote (note velocity : Z) : preserves Inv (playNote note velocity).
Proof.
  intros s H. destruct (audioContext s) as [c|] eqn:Hc.
  - destruct (inv_running s H c Hc) as [[g Hg] [[f Hf] Hb]].
    rewrite (playNote_running s c g); auto.
    2:{ apply fresh_not_started. intros k Hk. eapply inv_calls; eauto. }
    cbn [final_state]. destruct H as [I1 I2 I8 I3 I4 I5 I6 I7].
    constructor; cbn.
    + discriminate.
    + intros c' Hc'. eauto.
    + intros c' Hc'. injection Hc' as <-.
      destruct (I8 c Hc) as [Hg1 [Hf1 Hw]].
      split; [exact Hg1|]. split; [exact Hf1|].
      now apply master_wired_with_voice.
    + intros c' k Hc' Hk. injection Hc' as <-. cbn in Hk |- *.
      rewrite length_app. cbn. apply in_app_or in Hk as [Hk|[<-|[]]].
      * specialize (I3 c k Hc Hk). lia.
      * cbn. lia.
    + intros c' n osc Hc' Hn. injection Hc' as <-.
      destruct (Z.eqb n note) eqn:E.
      * apply Z.eqb_eq in E. subst n.
        rewrite (JSObjectFacts.get_set_same Z.eqb Z.eqb_eq) in Hn.
        injection Hn as <-. apply started_In. cbn. apply in_or_app.
        right. now left.
      * apply Z.eqb_neq in E.
        rewrite (JSObjectFacts.get_set_other Z.eqb Z.eqb_eq) in Hn by exact E.
        apply (started_add_call osc (Start (List.length (nodes c)))
                 {| defaults := defaults c;
                    nodes := nodes c ++ voice_nodes note velocity g c;
                    calls := calls c |}).
        rewrite started_In. cbn. apply started_In. eapply I4; eauto.
    + apply JSObjectFacts.unique_keys_set; [exact Z.eqb_eq | exact I5].
    + exact I6.
    + exact I7.
  - rewrite playNote_idle by exact Hc. exact H.
Qed.

Lemma Inv_stopNote (note : Z) : preserves Inv (stopNote note).
Proof.
  intros s H.
  destruct (JSObject.get Z.eqb note (pressedKeys s)) as [osc|] eqn:Hk.
  2:{ rewrite stopNote_absent by exact Hk. exact H. }
  destruct (audioContext s) as [c|] eqn:Hc.
  2:{ destruct (inv_idle s H Hc) as [_ [_ He]]. rewrite He in Hk.
      discriminate. }
  assert (Hs : started osc c = true) by (eapply inv_voices; eauto).
  rewrite (stopNote_present s c note osc) by assumption.
  cbn [final_state]. destruct H as [I1 I2 I8 I3 I4 I5 I6 I7].
  constructor; cbn.
  - discriminate.
  - intros c' Hc'. eauto.
  - intros c' Hc'. injection Hc' as <-. exact (I8 c Hc).
  - intros c' k Hc' Hin. injection Hc' as <-. cbn in Hin |- *.
    apply in_app_or in Hin as [Hin|[<-|[]]].
    + eapply I3; eauto.
    + cbn. apply started_In in Hs. apply (I3 c (Start osc) Hc Hs).
  - intros c' n osc' Hc' Hn. injection Hc' as <-.
    destruct (Z.eqb n note) eqn:E.
    + apply Z.eqb_eq in E. subst n.
      rewrite (JSObjectFacts.get_delete_same Z.eqb) in Hn. discriminate.
    + apply Z.eqb_neq in E.
      rewrite (JSObjectFacts.get_delete_other Z.eqb Z.eqb_eq) in Hn
        by exact E.
      apply started_add_call. eapply I4; eauto.
  - apply JSObjectFacts.unique_keys_delete; [exact Z.eqb_eq | exact I5].
  - exact I6.
  - exact I7.
Qed.

Lemma Inv_update_node (s : State) (c : BaseAudioContext) (id : NodeId)
  (f : AudioNode -> AudioNode) :
  audioContext s = Some c -> master_wired (update_node id f c) -> Inv s ->
  Inv (with_audioContext (Some (update_node id f c)) s).
Proof.
  intros Hc Hw [I1 I2 I8 I3 I4 I5 I6 I7]. constructor; cbn; auto.
  - discriminate.
  - intros c' Hc'. eauto.
  - intros c' Hc'. injection Hc' as <-.
    destruct (I8 c Hc) as [Hg1 [Hf1 _]]. auto.
  - intros c' k Hc' Hin. injection Hc' as <-. cbn in Hin |- *.
    rewrite update_nth_length. eauto.
  - intros c' n osc Hc' Hn. injection Hc' as <-.
    unfold started. cbn. eapply I4; eauto.
Qed.

Lemma Inv_setMasterGain (v : R) : preserves Inv (setMasterGain v).
Proof.
  intros s H. destruct (masterGainNode s) as [g|] eqn:Hg.
  - destruct (audioContext s) as [c|] eqn:Hc.
    + rewrite (setMasterGain_running s c g) by assumption.
      destruct (inv_master s H c Hc) as [Hg1 [_ Hw]].
      apply Inv_update_node; auto.
      assert (g = 1%nat) by congruence. subst g.
      now apply master_wired_set_gain.
    + destruct (inv_idle s H Hc) as [Hn _]. congruence.
  - rewrite setMasterGain_idle by exact Hg. exact H.
Qed.

Lemma Inv_setMasterFilterFreq (d : Z) : preserves Inv (setMasterFilterFreq d).
Proof.
  intros s H. destruct (masterFilter s) as [f|] eqn:Hf.
  - destruct (audioContext s) as [c|] eqn:Hc.
    + rewrite (setMasterFilterFreq_running s c f) by assumption.
      destruct (inv_master s H c Hc) as [_ [Hf1 Hw]].
      apply Inv_update_node; auto.
      assert (f = 2%nat) by congruence. subst f.
      now apply master_wired_set_frequency.
    + destruct (inv_idle s H Hc) as [_ [Hn _]]. congruence.
  - rewrite setMasterFilterFreq_idle by exact Hf. exact H.
Qed.

Lemma Inv_onMidiMessage (message : MIDIMessageEvent) :
  preserves Inv (onMidiMessage message).
Proof.
  unfold onMidiMessage.
  apply preserves_bind; [apply Inv_printMessageInfo|]. intros _.
  destruct (data message) as [[statusByte data1] data2].
  repeat (apply preserves_bind; [|intros _]);
    try apply preserves_when;
    auto using Inv_playNote, Inv_stopNote, Inv_setMasterFilterFreq.
  destruct (data1 =? 1); [apply preserves_ret|].
  destruct (data1 =? 7); [apply Inv_setMasterGain|apply preserves_ret].
Qed.

(** ** Listener lists *)

Lemma EventTarget_eqb_eq (a b : EventTarget) :
  EventTarget_eqb a b = true <-> a = b.
Proof.
  destruct a, b; cbn; rewrite ?Nat.eqb_eq; split; intro H;
    try discriminate; try (injection H as H); subst; auto.
Qed.

Lemma Callback_eqb_eq (a b : Callback) : Callback_eqb a b = true <-> a = b.
Proof. destruct a, b; cbn; split; intro H; try discriminate; auto. Qed.

Lemma Listener_eqb_eq (a b : Listener) : Listener_eqb a b = true <-> a = b.
Proof.
  destruct a as [[ta ea] ca], b as [[tb eb] cb]. cbn.
  rewrite !andb_true_iff, EventTarget_eqb_eq, String.eqb_eq, Callback_eqb_eq.
  split.
  - intros [[-> ->] ->]. reflexivity.
  - intro H. injection H as -> -> ->. auto.
Qed.

Lemma filter_none {A} (p : A -> bool) (l : list A) :
  existsb p l = false -> filter p l = [].
Proof.
  induction l as [|x l IH]; cbn; [reflexivity|].
  destruct (p x); cbn; [discriminate|exact IH].
Qed.

Lemma filter_filter_length {A} (p q : A -> bool) (l : list A) :
  (List.length (filter p (filter q l)) <= List.length (filter p l))%nat.
Proof.
  induction l as [|x l IH]; cbn; [lia|].
  destruct (q x); cbn; destruct (p x); cbn; lia.
Qed.

Lemma Inv_with_listeners (s : State) (ls : list Listener) :
  (forall l, (List.length (filter (Listener_eqb l) ls) <= 1)%nat) ->
  Inv s -> Inv (with_listeners ls s).
Proof.
  intros Hl [I1 I2 I8 I3 I4 I5 I6 I7]. constructor; cbn; auto.
Qed.

Lemma Inv_with_midiPorts (s : State) (ports : JSObject.t) :
  JSObject.unique_keys String.eqb ports ->
  Inv s -> Inv (with_midiPorts ports s).
Proof.
  intros Hp [I1 I2 I8 I3 I4 I5 I6 I7]. constructor; cbn; auto.
Qed.

Lemma Inv_addEventListener tgt type cb :
  preserves Inv (addEventListener tgt type cb).
Proof.
  intros s H. unfold addEventListener, modify, add_listener.
  cbn [final_state].
  destruct (existsb _ (listeners s)) eqn:E; [exact H|].
  apply Inv_with_listeners; [|exact H]. intro l.
  rewrite filter_app, length_app. cbn.
  destruct (Listener_eqb l (tgt, type, cb)) eqn:El; cbn.
  - apply Listener_eqb_eq in El. subst l.
    rewrite (filter_none _ _ E). cbn. lia.
  - pose proof (inv_listeners s H l) as Hl. unfold occurrences in Hl. lia.
Qed.

Lemma Inv_removeEventListener tgt type cb :
  preserves Inv (removeEventListener tgt type cb).
Proof.
  intros s H. unfold removeEventListener, modify, remove_listener.
  cbn [final_state].
  apply Inv_with_listeners; [|exact H]. intro l.
  pose proof (inv_listeners s H l) as Hl. unfold occurrences in Hl.
  pose proof (filter_filter_length (Listener_eqb l)
                (fun l0 => negb (Listener_eqb (tgt, type, cb) l0))
                (listeners s)).
  lia.
Qed.

Lemma Inv_enableMidiInput (input : MIDIPort) :
  preserves Inv (enableMidiInput input).
Proof.
  unfold enableMidiInput.
  apply preserves_bind; [apply preserves_gets|]. intros [|].
  - apply preserves_ret.
  - repeat (apply preserves_bind; [|intros _]);
      auto using Inv_logStatus, Inv_addEventListener.
    intros s H. unfold modify. cbn [final_state].
    apply Inv_with_midiPorts; [|exact H].
    apply JSObjectFacts.unique_keys_set;
      [exact String.eqb_eq | exact (inv_ports s H)].
Qed.

Lemma Inv_disableMidiInput (input : MIDIPort) :
  preserves Inv (disableMidiInput input).
Proof.
  unfold disableMidiInput.
  apply preserves_bind; [apply preserves_gets|]. intros [|]; cbn [negb].
  - repeat (apply preserves_bind; [|intros _]);
      auto using Inv_logStatus, Inv_removeEventListener.
    intros s H. unfold modify. cbn [final_state].
    apply Inv_with_midiPorts; [|exact H].
    apply JSObjectFacts.unique_keys_delete;
      [exact String.eqb_eq | exact (inv_ports s H)].
  - apply preserves_ret.
Qed.

Lemma Inv_onStateChange (port : MIDIPort) :
  preserves Inv (onStateChange port).
Proof.
  unfold onStateChange.
  apply preserves_bind; [apply Inv_logStatus|]. intros _.
  destruct (String.eqb (port_type port) "input"); [|apply preserves_ret].
  destruct (String.eqb (port_state port) "connected");
    [apply Inv_enableMidiInput|].
  destruct (String.eqb (port_state port) "disconnected");
    [apply Inv_disableMidiInput|apply preserves_ret].
Qed.

Lemma Inv_setupMidi_resolved (inputs : list MIDIPort) :
  preserves Inv (setupMidi_resolved inputs).
Proof.
  unfold setupMidi_resolved.
  apply preserves_bind; [apply Inv_addEventListener|]. intros _.
  apply preserves_forEach, Inv_enableMidiInput.
Qed.

Lemma Inv_onDomContentLoaded (nav : bool) :
  preserves Inv (onDomContentLoaded nav).
Proof.
  unfold onDomContentLoaded. destruct nav; cbn [negb].
  - apply preserves_bind; [apply Inv_logStatus|]. intros _.
    apply Inv_addEventListener.
  - apply preserves_bind; [apply Inv_logStatus|]. intros _.
    apply preserves_throw.
Qed.

(** ** Starting the session *)

Lemma createAudio_unsupported (s : State) :
  ACtx (window s) = None ->
  createAudio s =
  Normal tt
    (with_status
       ((status s ++ "Starting AudioContext..." ++ newline) ++
        "No constructor for AudioContext found." ++ newline)%string s).
Proof.
  intro H. destruct s; cbn in H.
  unfold createAudio. run_script. rewrite H. run_script.
  reflexivity.
Qed.

Lemma createAudio_supported (s : State) (ctor : Defaults) :
  ACtx (window s) = Some ctor ->
  createAudio s =
  Normal tt
    (with_masterFilter (Some 2%nat)
       (with_masterGainNode (Some 1%nat)
          (with_audioContext (Some (master_context ctor))
             (with_status
                (status s ++ "Starting AudioContext..." ++ newline)%string
                s)))).
Proof.
  intro H. destruct s; cbn in H.
  unfold createAudio, createFilter. run_script. rewrite H. run_script.
  reflexivity.
Qed.

Lemma onStartBtnClick_supported (s : State) (ctor : Defaults) :
  ACtx (window s) = Some ctor ->
  onStartBtnClick s =
  Normal tt
    (with_startBtn {| disabled := true; innerText := "Synth Running" |}
       (with_masterFilter (Some 2%nat)
          (with_masterGainNode (Some 1%nat)
             (with_audioContext (Some (master_context ctor))
                (with_status
                   (status s ++ "Starting AudioContext..." ++ newline)%string
                   s))))).
Proof.
  intro H. unfold onStartBtnClick, bind.
  rewrite (createAudio_supported s ctor H). reflexivity.
Qed.

Lemma onStartBtnClick_unsupported (s : State) :
  ACtx (window s) = None ->
  onStartBtnClick s =
  Normal tt
    (with_startBtn {| disabled := true; innerText := "Synth Running" |}
       (with_status
          ((status s ++ "Starting AudioContext..." ++ newline) ++
           "No constructor for AudioContext found." ++ newline)%string s)).
Proof.
  intro H. unfold onStartBtnClick, bind.
  rewrite (createAudio_unsupported s H). reflexivity.
Qed.

Lemma Inv_onStartBtnClick (s : State) :
  disabled (startBtn s) = false -> Inv s ->
  Inv (final_state (onStartBtnClick s)).
Proof.
  intros Hb H.
  assert (Hc : audioContext s = None).
  { destruct (audioContext s) as [c|] eqn:Hc; [|reflexivity].
    destruct (inv_running s H c Hc) as [_ [_ Hd]]. congruence. }
  destruct (inv_idle s H Hc) as [Hg [Hf Hk]].
  destruct H as [I1 I2 I8 I3 I4 I5 I6 I7].
  destruct (ACtx (window s)) as [ctor|] eqn:Hw.
  - rewrite (onStartBtnClick_supported s ctor Hw). cbn [final_state].
    constructor; cbn; auto; try discriminate.
    + intros c _. eauto.
    + intros c Hc'. injection Hc' as <-.
      split; [reflexivity|]. split; [reflexivity|].
      apply master_wired_master_context.
    + intros c k Hc'. injection Hc' as <-. cbn. contradiction.
    + intros c n osc _. rewrite Hk. discriminate.
  - rewrite (onStartBtnClick_unsupported s Hw). cbn [final_state].
    constructor; cbn; auto; intros; congruence.
Qed.

Lemma Inv_fire tgt type cb (m : M unit) :
  preserves Inv m -> forall s, Inv s -> Inv (fire tgt type cb m s).
Proof.
  intros Hm s H. unfold fire. destruct (registered _ s); auto.
Qed.

Lemma Inv_step (s : State) (e : Event) : Inv s -> Inv (step s e).
Proof.
  intro H. destruct e; cbn [step].
  - now apply Inv_onDomContentLoaded.
  - now apply Inv_setupMidi_resolved.
  - now apply Inv_logStatus.
  - apply Inv_fire; [apply Inv_onStateChange|].
    apply Inv_fire; [apply Inv_onStateChange|exact H].
  - apply Inv_fire; [apply Inv_onMidiMessage|exact H].
  - destruct (disabled (startBtn s)) eqn:Hb; [exact H|].
    unfold fire. destruct (registered _ s); [|exact H].
    now apply Inv_onStartBtnClick.
Qed.

Lemma Inv_run (events : list Event) (s : State) :
  Inv s -> Inv (run events s).
Proof.
  revert s. induction events as [|e events IH]; intros s H; cbn.
  - exact H.
  - apply IH, Inv_step, H.
Qed.

Lemma Reachable_Inv (s : State) : Reachable s -> Inv s.
Proof.
  intros [w [events ->]]. apply Inv_run, Inv_initial.
Qed.

Lemma Reachable_step (s : State) (e : Event) :
  Reachable s -> Reachable (step s e).
Proof.
  intros [w [events ->]]. exists w, (events ++ [e]).
  unfold run. now rewrite fold_left_app.
Qed.

(** ** The decoder *)

Lemma decode_Classified (statusByte data1 data2 : Z) :
  Classified statusByte data1 data2 (decode statusByte data1 data2).
Proof.
  unfold decode.
  destruct ((144 <=? statusByte) && (statusByte <=? 159)) eqn:Hon.
  { apply classified_NoteOn. lia. }
  destruct ((128 <=? statusByte) && (statusByte <=? 143)) eqn:Hoff.
  { apply classified_NoteOff. lia. }
  destruct (statusByte =? 176) eqn:Hcc.
  { apply classified_ControlChange. lia. }
  destruct (statusByte =? 224) eqn:Hpb.
  { apply classified_PitchBend. lia. }
  apply classified_Other; lia.
Qed.

Lemma Classified_decode (statusByte data1 data2 : Z) (e : MidiEvent) :
  Classified statusByte data1 data2 e -> e = decode statusByte data1 data2.
Proof.
  unfold decode. intros [H|H|H|H|H1 H2 H3].
  - replace ((144 <=? statusByte) && (statusByte <=? 159)) with true by lia.
    reflexivity.
  - replace ((144 <=? statusByte) && (statusByte <=? 159)) with false by lia.
    replace ((128 <=? statusByte) && (statusByte <=? 143)) with true by lia.
    reflexivity.
  - subst. reflexivity.
  - subst. reflexivity.
  - replace ((144 <=? statusByte) && (statusByte <=? 159)) with false by lia.
    replace ((128 <=? statusByte) && (statusByte <=? 143)) with false by lia.
    replace (statusByte =? 176) with false by lia.
    replace (statusByte =? 224) with false by lia.
    reflexivity.
Qed.

Lemma bind_ret_unit (m : M unit) (s : State) :
  bind m (fun _ => ret tt) s = m s.
Proof. unfold bind, ret. destruct (m s) as [[] s'|e s']; reflexivity. Qed.

Lemma bind_ext {A B} (m : M A) (k k' : A -> M B) (s : State) :
  (forall a s', k a s' = k' a s') -> bind m k s = bind m k' s.
Proof. intro H. unfold bind. destruct (m s); auto. Qed.

(** What [onMidiMessage] does after printing: the action of the decoded
    event. *)
Lemma dispatch_decode (statusByte data1 data2 : Z) (s : State) :
  (when (isNoteOn statusByte) (playNote data1 data2);;
   when (isNoteOff statusByte) (stopNote data1);;
   when (statusByte =? 176)
     (if data1 =? 1 then ret tt
      else if data1 =? 7 then setMasterGain (IZR data2 / 127)
      else ret tt);;
   when (statusByte =? 224) (setMasterFilterFreq data2))%js s =
  handle (decode statusByte data1 data2) s.
Proof.
  unfold decode, isNoteOn, isNoteOff.
  replace (statusByte >=? 144) with (144 <=? statusByte) by lia.
  replace (statusByte >=? 128) with (128 <=? statusByte) by lia.
  destruct ((144 <=? statusByte) && (statusByte <=? 159)) eqn:Hon.
  { replace ((128 <=? statusByte) && (statusByte <=? 143)) with false by lia.
    replace (statusByte =? 176) with false by lia.
    replace (statusByte =? 224) with false by lia.
    apply (bind_ret_unit (playNote data1 data2)). }
  destruct ((128 <=? statusByte) && (statusByte <=? 143)) eqn:Hoff.
  { replace (statusByte =? 176) with false by lia.
    replace (statusByte =? 224) with false by lia.
    apply (bind_ret_unit (stopNote data1)). }
  destruct (statusByte =? 176) eqn:Hcc.
  { replace (statusByte =? 224) with false by lia.
    cbn [when handle].
    destruct (data1 =? 1) eqn:H1.
    - replace (data1 =? 7) with false by lia. reflexivity.
    - destruct (data1 =? 7); [|reflexivity].
      apply (bind_ret_unit (setMasterGain (IZR data2 / 127))). }
  destruct (statusByte =? 224); reflexivity.
Qed.

(** C4. Every three-byte message decodes to exactly one typed event, fixed by
    the range of the status byte alone: 144..159 is NoteOn with note data1 and
    velocity data2, 128..143 is NoteOff with note data1, 176 is ControlChange
    with controller data1 and value data2, 224 is PitchBend with value data2,
    everything else is Other.  The decoder is total, the data bytes are
    carried over as they are whatever their value, and [onMidiMessage] acts on
    the message exactly as the Session Controller acts on the decoded event. *)
Theorem decoder_classifies_by_status_byte (statusByte data1 data2 : Z) :
  Classified statusByte data1 data2 (decode statusByte data1 data2) /\
  (forall e, Classified statusByte data1 data2 e ->
             e = decode statusByte data1 data2) /\
  (forall (port : MIDIPort) (s : State),
     let message := {| data := (statusByte, data1, data2); target := port |} in
     onMidiMessage message s =
     (printMessageInfo message;; handle (decode statusByte data1 data2))%js s).
Proof.
  split; [apply decode_Classified|].
  split; [apply Classified_decode|].
  intros port s message. unfold onMidiMessage. cbn [data message].
  apply bind_ext. intros _ s'. apply dispatch_decode.
Qed.

Lemma onMidiMessage_handle (message : MIDIMessageEvent) (s : State) :
  onMidiMessage message s =
  let '(statusByte, data1, data2) := data message in
  handle (decode statusByte data1 data2)
    (with_messages (Some (messageInfo message)) s).
Proof.
  unfold onMidiMessage. destruct (data message) as [[statusByte data1] data2].
  unfold bind at 1. unfold printMessageInfo, modify.
  apply dispatch_decode.
Qed.

Lemma decode_Other (statusByte data1 data2 : Z) :
  ~ 128 <= statusByte <= 159 -> statusByte <> 176 -> statusByte <> 224 ->
  decode statusByte data1 data2 = Other.
Proof.
  intros H1 H2 H3. symmetry. apply Classified_decode.
  now apply classified_Other.
Qed.

Lemma decode_NoteOn (statusByte data1 data2 : Z) :
  144 <= statusByte <= 159 ->
  decode statusByte data1 data2 = NoteOn data1 data2.
Proof.
  intro H. symmetry. apply Classified_decode. now apply classified_NoteOn.
Qed.

Lemma decode_NoteOff (statusByte data1 data2 : Z) :
  128 <= statusByte <= 143 ->
  decode statusByte data1 data2 = NoteOff data1.
Proof.
  intro H. symmetry. apply Classified_decode. now apply classified_NoteOff.
Qed.

(** C5. A three-byte message whose status byte lies outside 128..159 and is
    neither 176 nor 224 is classified as Other, and handling it completes
    without an exception and changes nothing but the message pane: the Voice
    Registry, the Device Registry, the audio context with the master gain and
    filter, and the listener lists are what they were. *)
Theorem other_message_mutates_nothing (statusByte data1 data2 : Z)
  (port : MIDIPort) (s : State) :
  ~ 128 <= statusByte <= 159 -> statusByte <> 176 -> statusByte <> 224 ->
  let message := {| data := (statusByte, data1, data2); target := port |} in
  decode statusByte data1 data2 = Other /\
  onMidiMessage message s =
    Normal tt (with_messages (Some (messageInfo message)) s) /\
  let s' := final_state (onMidiMessage message s) in
  pressedKeys s' = pressedKeys s /\
  midiPorts s' = midiPorts s /\
  listeners s' = listeners s /\
  audioContext s' = audioContext s /\
  masterGainNode s' = masterGainNode s /\
  masterFilter s' = masterFilter s.
Proof.
  intros H1 H2 H3 message.
  assert (Hd : decode statusByte data1 data2 = Other) by now apply decode_Other.
  assert (He : onMidiMessage message s =
               Normal tt (with_messages (Some (messageInfo message)) s)).
  { rewrite onMidiMessage_handle. cbn [data message]. now rewrite Hd. }
  split; [exact Hd|]. split; [exact He|].
  intro s'. subst s'. rewrite He. cbn. auto 10.
Qed.

(** The status byte 200 of the specification's scenario, on the sample
    session with a key held. *)
Lemma other_message_mutates_nothing_witness :
  let message := {| data := (200, 60, 90); target := example_keyboard |} in
  decode 200 60 90 = Other /\
  onMidiMessage message example_playing =
    Normal tt (with_messages (Some (messageInfo message)) example_playing) /\
  let s' := final_state (onMidiMessage message example_playing) in
  pressedKeys s' = pressedKeys example_playing /\
  midiPorts s' = midiPorts example_playing /\
  listeners s' = listeners example_playing /\
  audioContext s' = audioContext example_playing /\
  masterGainNode s' = masterGainNode example_playing /\
  masterFilter s' = masterFilter example_playing.
Proof.
  apply (other_message_mutates_nothing 200 60 90 example_keyboard
           example_playing); lia.
Defined.

(** ** Idle *)

Lemma handle_idle (e : MidiEvent) (s : State) :
  audioContext s = None -> masterGainNode s = None ->
  masterFilter s = None -> pressedKeys s = JSObject.empty ->
  handle e s = Normal tt s.
Proof.
  intros Hc Hg Hf Hk. destruct e as [n v|n|ctl v|v|]; cbn [handle].
  - now apply playNote_idle.
  - apply stopNote_absent. now rewrite Hk.
  - destruct (ctl =? 7); [now apply setMasterGain_idle|reflexivity].
  - now apply setMasterFilterFreq_idle.
  - reflexivity.
Qed.

Lemma idle_not_running (s : State) :
  isRunning s = false -> audioContext s = None.
Proof. unfold isRunning. destruct (audioContext s); [discriminate|auto]. Qed.

(** C3. While the session is Idle (no audio context has been created), every
    typed event, NoteOn 69 at velocity 100 among them, is handled without an
    exception and leaves the whole state as it was, and every three-byte
    message changes the message pane only.  The Voice Registry is empty and
    stays empty, no master gain or filter exists, and none is created. *)
Theorem idle_ignores_events (s : State) :
  Reachable s -> isRunning s = false ->
  pressedKeys s = JSObject.empty /\
  masterGainNode s = None /\ masterFilter s = None /\
  (forall e : MidiEvent, handle e s = Normal tt s) /\
  (forall message : MIDIMessageEvent,
     onMidiMessage message s =
     Normal tt (with_messages (Some (messageInfo message)) s)) /\
  (forall message : MIDIMessageEvent,
     let s' := final_state (onMidiMessage message s) in
     pressedKeys s' = JSObject.empty /\ audioContext s' = None /\
     masterGainNode s' = None /\ masterFilter s' = None).
Proof.
  intros Hr Hi. apply idle_not_running in Hi.
  destruct (inv_idle s (Reachable_Inv s Hr) Hi) as [Hg [Hf Hk]].
  assert (Hm : forall message : MIDIMessageEvent,
     onMidiMessage message s =
     Normal tt (with_messages (Some (messageInfo message)) s)).
  { intro message. rewrite onMidiMessage_handle.
    destruct (data message) as [[statusByte data1] data2].
    now apply handle_idle. }
  repeat split; auto.
  - intro e. now apply handle_idle.
  - rewrite Hm. exact Hk.
  - rewrite Hm. exact Hi.
  - rewrite Hm. exact Hg.
  - rewrite Hm. exact Hf.
Qed.

Lemma Reachable_example_idle : Reachable example_idle.
Proof. exists example_window. eexists. reflexivity. Qed.

Lemma Reachable_example_running : Reachable example_running.
Proof. apply Reachable_step, Reachable_example_idle. Qed.

Lemma Reachable_example_playing : Reachable example_playing.
Proof. apply Reachable_step, Reachable_example_running. Qed.

(** The specification's scenario: NoteOn 69 at velocity 100 from the sample
    keyboard before the start button is clicked. *)
Lemma idle_ignores_events_witness :
  handle (NoteOn 69 100) example_idle = Normal tt example_idle /\
  pressedKeys
    (final_state
       (onMidiMessage {| data := (144, 69, 100); target := example_keyboard |}
          example_idle)) = JSObject.empty.
Proof.
  pose proof (idle_ignores_events example_idle Reachable_example_idle
                eq_refl) as [_ [_ [_ [He [_ Hs]]]]].
  split.
  - apply He.
  - apply (Hs {| data := (144, 69, 100); target := example_keyboard |}).
Defined.

(** ** Releasing a key *)

(** C6. [stopNote] on a note with no registry entry completes without an
    exception and leaves the whole state as it was: the registry is
    unchanged and the engine receives no command.  On a note with an entry
    it completes, sends one [stop] to the oscillator the entry holds, and
    removes that entry and no other. *)
Theorem stopNote_unheld_is_noop_held_releases (s : State) (note : Z) :
  Reachable s ->
  match JSObject.get Z.eqb note (pressedKeys s) with
  | None => stopNote note s = Normal tt s
  | Some osc =>
      exists c,
        audioContext s = Some c /\
        stopNote note s =
          Normal tt
            (with_pressedKeys (JSObject.delete Z.eqb note (pressedKeys s))
               (with_audioContext (Some (add_call (Stop osc) c)) s)) /\
        calls (add_call (Stop osc) c) = calls c ++ [Stop osc] /\
        stops (add_call (Stop osc) c) = S (stops c) /\
        JSObject.get Z.eqb note
          (JSObject.delete Z.eqb note (pressedKeys s)) = None /\
        forall n, n <> note ->
          JSObject.get Z.eqb n (JSObject.delete Z.eqb note (pressedKeys s)) =
          JSObject.get Z.eqb n (pressedKeys s)
  end.
Proof.
  intro Hr. pose proof (Reachable_Inv s Hr) as H.
  destruct (JSObject.get Z.eqb note (pressedKeys s)) as [osc|] eqn:Hk.
  - destruct (audioContext s) as [c|] eqn:Hc.
    + exists c. split; [reflexivity|].
      split.
      { apply stopNote_present; auto. eapply inv_voices; eauto. }
      split; [reflexivity|].
      split; [apply stops_add_Stop|].
      split; [apply JSObjectFacts.get_delete_same|].
      intros n Hn.
      now apply (JSObjectFacts.get_delete_other Z.eqb Z.eqb_eq).
    + destruct (inv_idle s H Hc) as [_ [_ He]]. rewrite He in Hk.
      discriminate.
  - now apply stopNote_absent.
Qed.

(** On the sample session with key 60 held: releasing key 61 does nothing,
    releasing key 60 stops oscillator 3 and empties the registry. *)
Lemma stopNote_unheld_is_noop_held_releases_witness :
  stopNote 61 example_playing = Normal tt example_playing /\
  exists c,
    audioContext example_playing = Some c /\
    stopNote 60 example_playing =
      Normal tt
        (with_pressedKeys JSObject.empty
           (with_audioContext (Some (add_call (Stop 3%nat) c))
              example_playing)).
Proof.
  split.
  - exact (stopNote_unheld_is_noop_held_releases example_playing 61
             Reachable_example_playing).
  - destruct (stopNote_unheld_is_noop_held_releases example_playing 60
                Reachable_example_playing) as [c [Hc [Hs _]]].
    exists c. split; [exact Hc|exact Hs].
Defined.

(** ** Pressing a key while Running *)

Lemma onMidiMessage_NoteOn (statusByte data1 data2 : Z) (port : MIDIPort)
  (s : State) :
  144 <= statusByte <= 159 ->
  let message := {| data := (statusByte, data1, data2); target := port |} in
  onMidiMessage message s =
  playNote data1 data2 (with_messages (Some (messageInfo message)) s).
Proof.
  intros H message. rewrite onMidiMessage_handle. cbn [data message].
  now rewrite decode_NoteOn.
Qed.

Lemma onMidiMessage_NoteOff (statusByte data1 data2 : Z) (port : MIDIPort)
  (s : State) :
  128 <= statusByte <= 143 ->
  let message := {| data := (statusByte, data1, data2); target := port |} in
  onMidiMessage message s =
  stopNote data1 (with_messages (Some (messageInfo message)) s).
Proof.
  intros H message. rewrite onMidiMessage_handle. cbn [data message].
  now rewrite decode_NoteOff.
Qed.

(** What Running provides: a context, a master gain, and a fresh node index
    that no command has named yet. *)
Lemma running_state (s : State) :
  Reachable s -> isRunning s = true ->
  exists c g,
    audioContext s = Some c /\ masterGainNode s = Some g /\
    started (List.length (nodes c)) c = false.
Proof.
  intros Hr Hi. pose proof (Reachable_Inv s Hr) as H.
  unfold isRunning in Hi. destruct (audioContext s) as [c|] eqn:Hc;
    [|discriminate].
  destruct (inv_running s H c Hc) as [[g Hg] _].
  exists c, g. repeat split; auto.
  apply fresh_not_started. intros k Hk. eapply inv_calls; eauto.
Qed.

Lemma noteOn_running (s : State) (c : BaseAudioContext) (g : NodeId)
  (statusByte note velocity : Z) (port : MIDIPort) :
  audioContext s = Some c -> masterGainNode s = Some g ->
  started (List.length (nodes c)) c = false ->
  144 <= statusByte <= 159 ->
  let message :=
    {| data := (statusByte, note, velocity); target := port |} in
  onMidiMessage message s =
  Normal tt
    (with_pressedKeys
       (JSObject.set Z.eqb note (List.length (nodes c)) (pressedKeys s))
       (with_audioContext (Some (with_voice note velocity g c))
          (with_messages (Some (messageInfo message)) s))).
Proof.
  intros Hc Hg Hf Hs message. subst message.
  rewrite onMidiMessage_NoteOn by exact Hs.
  now rewrite (playNote_running _ c g).
Qed.

Lemma started_with_voice (note velocity : Z) (g : NodeId)
  (c : BaseAudioContext) :
  started (List.length (nodes c)) (with_voice note velocity g c) = true.
Proof.
  apply started_In. cbn. apply in_or_app. right. now left.
Qed.

(** C2. From Running with an empty Voice Registry, a NoteOn for note 60 at
    velocity 90 followed by a NoteOff for note 60 both complete: the first
    registers one voice for note 60, the second removes it and leaves the
    registry empty, and over the two messages the engine receives one
    [start] and exactly one [stop], both for that voice's oscillator. *)
Theorem noteOn_then_noteOff (s : State) (port : MIDIPort)
  (on off release : Z) :
  Reachable s -> isRunning s = true -> pressedKeys s = JSObject.empty ->
  144 <= on <= 159 -> 128 <= off <= 143 ->
  exists c g s1 s2,
    let osc := List.length (nodes c) in
    audioContext s = Some c /\ masterGainNode s = Some g /\
    onMidiMessage {| data := (on, 60, 90); target := port |} s
      = Normal tt s1 /\
    pressedKeys s1 = [(60, osc)] /\
    audioContext s1 = Some (with_voice 60 90 g c) /\
    onMidiMessage {| data := (off, 60, release); target := port |} s1
      = Normal tt s2 /\
    pressedKeys s2 = JSObject.empty /\
    audioContext s2 = Some (add_call (Stop osc) (with_voice 60 90 g c)) /\
    calls (add_call (Stop osc) (with_voice 60 90 g c))
      = calls c ++ [Start osc; Stop osc] /\
    stops (add_call (Stop osc) (with_voice 60 90 g c)) = S (stops c).
Proof.
  intros Hr Hi Hk Hon Hoff.
  destruct (running_state s Hr Hi) as [c [g [Hc [Hg Hf]]]].
  exists c, g. eexists. eexists. cbv zeta.
  split; [exact Hc|]. split; [exact Hg|].
  split. { apply (noteOn_running s c g); assumption. }
  cbn [pressedKeys audioContext with_pressedKeys with_audioContext
       with_messages].
  rewrite Hk. cbn [JSObject.set JSObject.empty].
  split; [reflexivity|]. split; [reflexivity|].
  split.
  { rewrite onMidiMessage_NoteOff by exact Hoff.
    apply (stopNote_present _ (with_voice 60 90 g c) 60
             (List.length (nodes c))).
    - reflexivity.
    - reflexivity.
    - apply started_with_voice. }
  cbn [pressedKeys audioContext with_pressedKeys with_audioContext
       with_messages].
  split; [reflexivity|]. split; [reflexivity|].
  split.
  - cbn. now rewrite <- app_assoc.
  - now rewrite stops_add_Stop, stops_with_voice.
Qed.

(** The scenario on the sample session. *)
Lemma noteOn_then_noteOff_witness :
  exists c g s1 s2,
    let osc := List.length (nodes c) in
    audioContext example_running = Some c /\
    masterGainNode example_running = Some g /\
    onMidiMessage {| data := (144, 60, 90); target := example_keyboard |}
      example_running = Normal tt s1 /\
    pressedKeys s1 = [(60, osc)] /\
    audioContext s1 = Some (with_voice 60 90 g c) /\
    onMidiMessage {| data := (128, 60, 0); target := example_keyboard |} s1
      = Normal tt s2 /\
    pressedKeys s2 = JSObject.empty /\
    audioContext s2 = Some (add_call (Stop osc) (with_voice 60 90 g c)) /\
    calls (add_call (Stop osc) (with_voice 60 90 g c))
      = calls c ++ [Start osc; Stop osc] /\
    stops (add_call (Stop osc) (with_voice 60 90 g c)) = S (stops c).
Proof.
  apply (noteOn_then_noteOff example_running example_keyboard 144 128 0).
  - exact Reachable_example_running.
  - reflexivity.
  - reflexivity.
  - lia.
  - lia.
Defined.

(** C1. In every state the page can reach, whatever the events handled so
    far, the Voice Registry holds at most one entry per note.  While Running,
    a NoteOn for a note that already has an entry completes and leaves
    exactly one entry for it, holding the new oscillator, which is not the
    old one; the engine receives a [start] for the new oscillator and no
    [stop], and the old oscillator keeps its node and stays started. *)
Theorem one_voice_per_note (s : State) :
  Reachable s ->
  (forall n, (JSObject.entries Z.eqb n (pressedKeys s) <= 1)%nat) /\
  (forall (port : MIDIPort) (statusByte n velocity : Z) (old : NodeId),
     isRunning s = true -> 144 <= statusByte <= 159 ->
     JSObject.get Z.eqb n (pressedKeys s) = Some old ->
     exists c g s',
       let osc := List.length (nodes c) in
       audioContext s = Some c /\ masterGainNode s = Some g /\
       onMidiMessage
         {| data := (statusByte, n, velocity); target := port |} s
         = Normal tt s' /\
       JSObject.entries Z.eqb n (pressedKeys s') = 1%nat /\
       JSObject.get Z.eqb n (pressedKeys s') = Some osc /\
       osc <> old /\
       audioContext s' = Some (with_voice n velocity g c) /\
       calls (with_voice n velocity g c) = calls c ++ [Start osc] /\
       stops (with_voice n velocity g c) = stops c /\
       nth_error (nodes (with_voice n velocity g c)) old
         = nth_error (nodes c) old /\
       started old (with_voice n velocity g c) = true).
Proof.
  intro Hr. pose proof (Reachable_Inv s Hr) as H.
  split; [exact (inv_keys s H)|].
  intros port statusByte n velocity old Hi Hs Hk.
  destruct (running_state s Hr Hi) as [c [g [Hc [Hg Hf]]]].
  assert (Hold : started old c = true) by (eapply inv_voices; eauto).
  assert (Hlt : (old < List.length (nodes c))%nat).
  { apply started_In in Hold. exact (inv_calls s H c (Start old) Hc Hold). }
  exists c, g. eexists. cbv zeta.
  split; [exact Hc|]. split; [exact Hg|].
  split. { apply (noteOn_running s c g); assumption. }
  cbn [pressedKeys audioContext with_pressedKeys with_audioContext
       with_messages].
  split.
  { rewrite (JSObjectFacts.entries_set_same Z.eqb Z.eqb_eq).
    pose proof (inv_keys s H n) as Hn.
    pose proof (JSObjectFacts.entries_present Z.eqb n old _ Hk). lia. }
  split; [apply (JSObjectFacts.get_set_same Z.eqb Z.eqb_eq)|].
  split; [lia|].
  split; [reflexivity|].
  split; [reflexivity|].
  split; [apply stops_with_voice|].
  split.
  - cbn. now apply nth_error_app1.
  - apply started_In. cbn. apply in_or_app. left. now apply started_In.
Qed.

(** Key 60 pressed again on the sample session while it is held. *)
Lemma one_voice_per_note_witness :
  (forall n,
     (JSObject.entries Z.eqb n (pressedKeys example_playing) <= 1)%nat) /\
  exists c g s',
    audioContext example_playing = Some c /\
    masterGainNode example_playing = Some g /\
    onMidiMessage {| data := (144, 60, 90); target := example_keyboard |}
      example_playing = Normal tt s' /\
    JSObject.entries Z.eqb 60 (pressedKeys s') = 1%nat /\
    JSObject.get Z.eqb 60 (pressedKeys s') = Some (List.length (nodes c)) /\
    List.length (nodes c) <> 3%nat /\
    stops (with_voice 60 90 g c) = stops c.
Proof.
  destruct (one_voice_per_note example_playing Reachable_example_playing)
    as [Hone Htwice].
  split; [exact Hone|].
  destruct (Htwice example_keyboard 144 60 90 3%nat)
    as [c [g [s' [Hc [Hg [Hm [He [Hn [Ho [_ [_ [Hs _]]]]]]]]]]]].
  - reflexivity.
  - lia.
  - reflexivity.
  - exists c, g, s'. auto 10.
Defined.

(** ** The velocity curve *)

Lemma midiVelocityToGain_0 : midiVelocityToGain 0 = 0%R.
Proof.
  unfold midiVelocityToGain, Math_log, Math_pow.
  rewrite Rpower_O by lra. rewrite ln_1. lra.
Qed.

(** C9. While Running, a NoteOn with velocity 0 is not taken for a NoteOff:
    for every note and every velocity, 0 included, the message completes
    with the same effect, a new oscillator registered under the note and fed
    through a gain stage into the master gain.  At velocity 0 the gain stage
    holds [midiVelocityToGain 0], which is 0, the registry holds the new
    oscillator, and the engine receives no [stop]. *)
Theorem noteOn_velocity_zero_starts_voice (s : State) (port : MIDIPort)
  (statusByte note : Z) :
  Reachable s -> isRunning s = true -> 144 <= statusByte <= 159 ->
  exists c g,
    let osc := List.length (nodes c) in
    audioContext s = Some c /\ masterGainNode s = Some g /\
    (forall velocity,
       let message :=
         {| data := (statusByte, note, velocity); target := port |} in
       onMidiMessage message s =
       Normal tt
         (with_pressedKeys (JSObject.set Z.eqb note osc (pressedKeys s))
            (with_audioContext (Some (with_voice note velocity g c))
               (with_messages (Some (messageInfo message)) s)))) /\
    JSObject.get Z.eqb note (JSObject.set Z.eqb note osc (pressedKeys s))
      = Some osc /\
    nth_error (nodes (with_voice note 0 g c)) (S osc)
      = Some (GainNode {| value := 0 |} [g]) /\
    midiVelocityToGain 0 = 0%R /\
    calls (with_voice note 0 g c) = calls c ++ [Start osc] /\
    stops (with_voice note 0 g c) = stops c.
Proof.
  intros Hr Hi Hs.
  destruct (running_state s Hr Hi) as [c [g [Hc [Hg Hf]]]].
  exists c, g. cbv zeta.
  split; [exact Hc|]. split; [exact Hg|].
  split. { intro velocity. apply (noteOn_running s c g); assumption. }
  split; [apply (JSObjectFacts.get_set_same Z.eqb Z.eqb_eq)|].
  split.
  { cbn [nodes with_voice voice_nodes].
    rewrite nth_error_app2 by lia.
    replace (S (List.length (nodes c)) - List.length (nodes c))%nat
      with 1%nat by lia.
    cbn. now rewrite midiVelocityToGain_0. }
  split; [apply midiVelocityToGain_0|].
  split; [reflexivity|apply stops_with_voice].
Qed.

(** NoteOn for key 64 at velocity 0 on the sample session. *)
Lemma noteOn_velocity_zero_starts_voice_witness :
  exists c g,
    audioContext example_running = Some c /\
    masterGainNode example_running = Some g /\
    nth_error (nodes (with_voice 64 0 g c)) (S (List.length (nodes c)))
      = Some (GainNode {| value := 0 |} [g]) /\
    stops (with_voice 64 0 g c) = stops c.
Proof.
  destruct (noteOn_velocity_zero_starts_voice example_running
              example_keyboard 144 64 Reachable_example_running eq_refl)
    as [c [g [Hc [Hg [_ [_ [Hn [_ [_ Hs]]]]]]]]].
  - lia.
  - exists c, g. auto.
Defined.

Lemma ln_10_pos : (0 < ln 10)%R.
Proof. rewrite <- ln_1. apply ln_increasing; lra. Qed.

Lemma midiVelocityToGain_linear (velocity : Z) :
  midiVelocityToGain velocity
  = (IZR velocity * ln 10 / 292.4283068102438)%R.
Proof.
  unfold midiVelocityToGain, Math_log, Math_pow, Rpower.
  now rewrite ln_exp.
Qed.

(** C8. [midiVelocityToGain] is the specification's formula, the natural
    logarithm of 10 to the power of the velocity divided by
    292.4283068102438, and between velocities 1 and 127 a larger velocity
    gives a strictly larger gain. *)
Theorem midiVelocityToGain_strictly_increasing (v w : Z) :
  1 <= v -> v < w -> w <= 127 ->
  midiVelocityToGain v = velocityToGain_spec v /\
  midiVelocityToGain w = velocityToGain_spec w /\
  (midiVelocityToGain v < midiVelocityToGain w)%R.
Proof.
  intros Hv Hvw Hw.
  split; [reflexivity|]. split; [reflexivity|].
  rewrite !midiVelocityToGain_linear.
  pose proof ln_10_pos as Hln.
  apply IZR_lt in Hvw.
  apply Rmult_lt_compat_r; [apply Rinv_0_lt_compat; lra|].
  apply Rmult_lt_compat_r; assumption.
Qed.

Lemma midiVelocityToGain_strictly_increasing_witness :
  midiVelocityToGain 64 = velocityToGain_spec 64 /\
  midiVelocityToGain 127 = velocityToGain_spec 127 /\
  (midiVelocityToGain 64 < midiVelocityToGain 127)%R.
Proof.
  apply (midiVelocityToGain_strictly_increasing 64 127); lia.
Defined.

(** ** The master channel *)

Lemma createFilter_keeps_defaults (s : State) (c : BaseAudioContext) :
  audioContext s = Some c ->
  createFilter s =
  Normal (List.length (nodes c))
    (with_audioContext
       (Some {| defaults := defaults c;
                nodes := nodes c ++
                  [BiquadFilterNode "lowpass"
                     {| value := biquad_frequency_default (defaults c) |}
                     {| value := biquad_Q_default (defaults c) |} []];
                calls := calls c |}) s).
Proof.
  intro Hc. destruct s; cbn in Hc; subst.
  unfold createFilter. run_script. now rewrite !update_nth_last.
Qed.

(** X6. The [createFilter] of the class-based rewrite leaves a low-pass
    filter whose [frequency] holds 1000 and whose [Q] holds 8. *)
Lemma MidiSynthClass_createFilter_sets_parameters (s : State)
  (c : BaseAudioContext) :
  audioContext s = Some c ->
  MidiSynthClass.createFilter s =
  Normal (List.length (nodes c))
    (with_audioContext
       (Some {| defaults := defaults c;
                nodes := nodes c ++
                  [BiquadFilterNode "lowpass"
                     {| value := 1000 |} {| value := 8 |} []];
                calls := calls c |}) s).
Proof.
  intro Hc. destruct s; cbn in Hc; subst.
  unfold MidiSynthClass.createFilter. run_script.
  now rewrite !update_nth_last.
Qed.

(** C10. The start click on the sample session, a browser with the standard
    audio engine.  The master gain is created, set to 0.5 and wired to the
    filter, and the filter is a low-pass wired to the destination; but its
    [frequency] and [Q] parameters hold the engine's 350 Hz and 1, not 1000 Hz
    and 8: [createFilter] assigns to the read-only attributes [frequency] and
    [Q] instead of their [value]. *)
Theorem start_click_filter_parameters :
  exists s',
    onStartBtnClick example_idle = Normal tt s' /\
    isRunning s' = true /\
    audioContext s' = Some (master_context WebAudio) /\
    masterGainNode s' = Some 1%nat /\
    masterFilter s' = Some 2%nat /\
    nth_error (nodes (master_context WebAudio)) 1
      = Some (GainNode {| value := 0.5 |} [2%nat]) /\
    nth_error (nodes (master_context WebAudio)) 2
      = Some (BiquadFilterNode "lowpass"
                {| value := 350 |} {| value := 1 |} [destination]) /\
    (350 <> 1000)%R /\ (1 <> 8)%R.
Proof.
  eexists. split.
  { apply (onStartBtnClick_supported example_idle WebAudio). reflexivity. }
  repeat split; try reflexivity; lra.
Qed.

(** ** The Device Registry *)

Lemma filter_some {A} (p : A -> bool) (l : list A) :
  existsb p l = true -> (1 <= List.length (filter p l))%nat.
Proof.
  induction l as [|x l IH]; cbn; [discriminate|].
  destruct (p x); cbn; [lia|exact IH].
Qed.

Lemma Listener_eqb_same (l : Listener) : Listener_eqb l l = true.
Proof. now apply Listener_eqb_eq. Qed.

Lemma registered_add_listener (l : Listener) (s : State) :
  registered l (add_listener l s) = true.
Proof.
  unfold registered, add_listener.
  destruct (existsb (Listener_eqb l) (listeners s)) eqn:E; [exact E|].
  cbn. rewrite existsb_app. cbn. rewrite Listener_eqb_same.
  now rewrite orb_true_r.
Qed.

Lemma enableMidiInput_known (input : MIDIPort) (s : State) :
  midiPorts_truthy (name input) s = true ->
  enableMidiInput input s = Normal tt s.
Proof.
  intro H. unfold enableMidiInput, bind, gets. now rewrite H.
Qed.

Lemma enableMidiInput_unknown (input : MIDIPort) (s : State) :
  midiPorts_truthy (name input) s = false ->
  enableMidiInput input s =
  Normal tt
    (with_midiPorts
       (JSObject.set String.eqb (name input) input (midiPorts s))
       (add_listener
          (PortTarget (port_id input), "midimessage", cb_onMidiMessage)
          (add_listener
             (PortTarget (port_id input), "statechange", cb_onStateChange)
             (with_status
                (status s ++ ("Found MIDI input: '" ++ name input ++ "'")
                 ++ newline)%string s)))).
Proof.
  intro H. unfold enableMidiInput, bind, gets. rewrite H.
  unfold logStatus, addEventListener, modify. cbn [with_status listeners].
  f_equal. f_equal. unfold add_listener. cbn [listeners with_status].
  destruct (existsb _ (listeners s)); cbn [listeners with_listeners];
    match goal with
    | |- context [if ?b then _ else _] => destruct b
    end; reflexivity.
Qed.

Lemma disableMidiInput_unknown (input : MIDIPort) (s : State) :
  midiPorts_truthy (name input) s = false ->
  disableMidiInput input s = Normal tt s.
Proof.
  intro H. unfold disableMidiInput, bind, gets. now rewrite H.
Qed.

(** X5. For a port whose name no object inherits and the registry does not
    hold: the first [enableMidiInput] registers it and subscribes it once,
    the second changes nothing; and [disableMidiInput] on it changes
    nothing. *)
Lemma enableMidiInput_twice (input : MIDIPort) (s : State) :
  Inv s ->
  JSObject.inherited (name input) = false ->
  JSObject.get String.eqb (name input) (midiPorts s) = None ->
  disableMidiInput input s = Normal tt s /\
  exists s1,
    enableMidiInput input s = Normal tt s1 /\
    enableMidiInput input s1 = Normal tt s1 /\
    JSObject.get String.eqb (name input) (midiPorts s1) = Some input /\
    JSObject.entries String.eqb (name input) (midiPorts s1) = 1%nat /\
    subscriptions (port_id input) s1 = 1%nat.
Proof.
  intros H Hi Hk.
  assert (Hf : midiPorts_truthy (name input) s = false).
  { unfold midiPorts_truthy. now rewrite Hk. }
  split; [now apply disableMidiInput_unknown|].
  pose proof (Inv_enableMidiInput input s H) as H1.
  rewrite (enableMidiInput_unknown input s Hf) in H1 |- *.
  cbn [final_state] in H1.
  eexists. split; [reflexivity|].
  assert (Hg : JSObject.get String.eqb (name input)
                 (JSObject.set String.eqb (name input) input (midiPorts s))
               = Some input)
    by apply (JSObjectFacts.get_set_same String.eqb String.eqb_eq).
  split.
  { apply enableMidiInput_known. unfold midiPorts_truthy.
    cbn [midiPorts with_midiPorts]. now rewrite Hg. }
  cbn [midiPorts with_midiPorts].
  split; [exact Hg|].
  split.
  { pose proof (inv_ports _ H1 (name input)) as Hu.
    cbn [midiPorts with_midiPorts] in Hu.
    pose proof (JSObjectFacts.entries_present String.eqb _ _ _ Hg). lia. }
  unfold subscriptions.
  pose proof (inv_listeners _ H1
                (PortTarget (port_id input), "midimessage", cb_onMidiMessage))
    as Hu.
  pose proof (registered_add_listener
                (PortTarget (port_id input), "midimessage", cb_onMidiMessage)
                (add_listener
                   (PortTarget (port_id input), "statechange",
                    cb_onStateChange)
                   (with_status
                      (status s ++
                       ("Found MIDI input: '" ++ name input ++ "'") ++
                       newline)%string s))) as Hr.
  apply filter_some in Hr. unfold occurrences in *.
  cbn [listeners with_midiPorts] in Hu |- *. lia.
Qed.

(** C7. A MIDI input whose name is "constructor", reported on the sample
    session before the start click.  [midiPorts["constructor"]] reads the
    member every object inherits, so [enableMidiInput] returns at its guard:
    after one call or two the port has no subscription and no registry
    entry, also when the port arrives through [setupMidi] or a [statechange]
    event.  The sample keyboard, enabled by the same calls, has its one
    subscription, and so has the port named "constructor" under the
    [enableMidiInput] of the rewrite that keeps no registry. *)
Theorem enable_inherited_name_never_subscribes :
  enableMidiInput constructor_port example_idle = Normal tt example_idle /\
  (enableMidiInput constructor_port;; enableMidiInput constructor_port)%js
    example_idle = Normal tt example_idle /\
  subscriptions (port_id constructor_port) example_idle = 0%nat /\
  JSObject.get String.eqb "constructor" (midiPorts example_idle) = None /\
  (let s := run [DOMContentLoaded true;
                 MIDIAccessResolved [example_keyboard; constructor_port];
                 StateChangeEvent constructor_port]
                (initial example_window) in
   subscriptions (port_id constructor_port) s = 0%nat /\
   JSObject.get String.eqb "constructor" (midiPorts s) = None /\
   subscriptions (port_id example_keyboard) s = 1%nat) /\
  subscriptions (port_id constructor_port)
    (final_state
       ((InitScript.enableMidiInput constructor_port;;
         InitScript.enableMidiInput constructor_port)%js example_idle))
    = 1%nat.
Proof.
  repeat split; reflexivity.
Qed.

(** ** Further properties of the mappers and the master channel *)


Lemma running_master (s : State) :
  Reachable s -> isRunning s = true ->
  exists c,
    audioContext s = Some c /\ masterGainNode s = Some 1%nat /\
    masterFilter s = Some 2%nat /\ master_wired c.
Proof.
  intros Hr Hi. pose proof (Reachable_Inv s Hr) as H.
  unfold isRunning in Hi. destruct (audioContext s) as [c|] eqn:Hc;
    [|discriminate].
  destruct (inv_master s H c Hc) as [Hg [Hf Hw]]. exists c. auto.
Qed.

(** X2. While Running, a ControlChange for controller 7 completes and sets
    the master gain to the value divided by 127, leaving the Voice Registry
    and every other node as they were; value 0 gives gain 0 and value 127
    gives gain 1. *)
Theorem volume_controller_sets_master_gain (s : State) (port : MIDIPort)
  (value : Z) :
  Reachable s -> isRunning s = true ->
  exists c,
    let message := {| data := (176, 7, value); target := port |} in
    let c' := update_node 1%nat (set_gain_value (controlVolumeToGain value))
                c in
    audioContext s = Some c /\
    onMidiMessage message s =
      Normal tt
        (with_audioContext (Some c')
           (with_messages (Some (messageInfo message)) s)) /\
    nth_error (nodes c') 1
      = Some (GainNode {| value := controlVolumeToGain value |} [2%nat]) /\
    (forall id, id <> 1%nat -> nth_error (nodes c') id = nth_error (nodes c) id)
    /\ calls c' = calls c /\
    controlVolumeToGain 0 = 0%R /\ controlVolumeToGain 127 = 1%R.
Proof.
  intros Hr Hi.
  destruct (running_master s Hr Hi) as [c [Hc [Hg [Hf [[v Hv] _]]]]].
  exists c. cbv zeta.
  split; [exact Hc|].
  split.
  { rewrite onMidiMessage_handle. cbn [data]. cbn [decode handle Z.eqb
      Z.leb Z.compare Pos.compare Pos.compare_cont andb Pos.eqb].
    now apply setMasterGain_running. }
  split.
  { cbn [nodes update_node]. rewrite nth_error_update_nth_same, Hv.
    reflexivity. }
  split.
  { intros id Hid. cbn [nodes update_node].
    apply nth_error_update_nth_other. congruence. }
  split; [reflexivity|].
  unfold controlVolumeToGain. split; lra.
Qed.

Lemma volume_controller_sets_master_gain_witness :
  exists c,
    audioContext example_playing = Some c /\
    nth_error
      (nodes (update_node 1%nat (set_gain_value (controlVolumeToGain 64)) c))
      1
    = Some (GainNode {| value := controlVolumeToGain 64 |} [2%nat]).
Proof.
  destruct (volume_controller_sets_master_gain example_playing
              example_keyboard 64 Reachable_example_playing eq_refl)
    as [c [Hc [_ [Hn _]]]].
  exists c. auto.
Defined.

(** X3. While Running, a PitchBend message completes and sets the master
    filter's cutoff to data2 / 64 * 1000 whatever data1 is; the filter stays
    a low-pass wired to the destination and its [Q] stays what the engine
    created it with.  Value 64 gives 1000 Hz and value 0 gives 0 Hz. *)
Theorem pitch_bend_sets_filter_cutoff (s : State) (port : MIDIPort)
  (data1 data2 : Z) :
  Reachable s -> isRunning s = true ->
  exists c,
    let message := {| data := (224, data1, data2); target := port |} in
    let c' := update_node 2%nat
                (set_frequency_value (pitchBendToFilterCutoff data2)) c in
    audioContext s = Some c /\
    onMidiMessage message s =
      Normal tt
        (with_audioContext (Some c')
           (with_messages (Some (messageInfo message)) s)) /\
    nth_error (nodes c') 2
      = Some (BiquadFilterNode "lowpass"
                {| value := pitchBendToFilterCutoff data2 |}
                {| value := biquad_Q_default (defaults c) |} [destination]) /\
    pitchBendToFilterCutoff 64 = 1000%R /\ pitchBendToFilterCutoff 0 = 0%R.
Proof.
  intros Hr Hi.
  destruct (running_master s Hr Hi) as [c [Hc [Hg [Hf [_ [f Hn]]]]]].
  exists c. cbv zeta.
  split; [exact Hc|].
  split.
  { rewrite onMidiMessage_handle. cbn [data]. cbn [decode handle Z.eqb
      Z.leb Z.compare Pos.compare Pos.compare_cont andb Pos.eqb].
    now apply setMasterFilterFreq_running. }
  split.
  { cbn [nodes update_node]. rewrite nth_error_update_nth_same, Hn.
    reflexivity. }
  unfold pitchBendToFilterCutoff. split; lra.
Qed.

Lemma pitch_bend_sets_filter_cutoff_witness :
  exists c,
    audioContext example_running = Some c /\
    nth_error
      (nodes (update_node 2%nat
                (set_frequency_value (pitchBendToFilterCutoff 64)) c)) 2
    = Some (BiquadFilterNode "lowpass"
              {| value := pitchBendToFilterCutoff 64 |}
              {| value := biquad_Q_default (defaults c) |} [destination]).
Proof.
  destruct (pitch_bend_sets_filter_cutoff example_running example_keyboard
              0 64 Reachable_example_running eq_refl)
    as [c [Hc [_ [Hn _]]]].
  exists c. auto.
Defined.

(** X4. In every reachable Running state the master gain is node 1 and feeds
    node 2, the master filter is node 2, a low-pass feeding the destination,
    and the filter's [Q] is the value the engine created it with: no event
    changes it. *)
Theorem master_channel_wiring (s : State) :
  Reachable s -> isRunning s = true ->
  exists c,
    audioContext s = Some c /\ masterGainNode s = Some 1%nat /\
    masterFilter s = Some 2%nat /\
    (exists v,
       nth_error (nodes c) 1 = Some (GainNode {| value := v |} [2%nat])) /\
    (exists f,
       nth_error (nodes c) 2
       = Some (BiquadFilterNode "lowpass" {| value := f |}
                 {| value := biquad_Q_default (defaults c) |}
                 [destination])).
Proof.
  intros Hr Hi.
  destruct (running_master s Hr Hi) as [c [Hc [Hg [Hf [Hv Hn]]]]].
  exists c. auto.
Qed.

Lemma master_channel_wiring_witness :
  exists c,
    audioContext example_playing = Some c /\
    masterGainNode example_playing = Some 1%nat /\
    masterFilter example_playing = Some 2%nat.
Proof.
  destruct (master_channel_wiring example_playing Reachable_example_playing
              eq_refl) as [c [Hc [Hg [Hf _]]]].
  exists c. auto.
Defined.

(** The first report of the sample keyboard on a freshly loaded page. *)
Lemma enableMidiInput_twice_witness :
  disableMidiInput example_keyboard (initial example_window)
    = Normal tt (initial example_window) /\
  exists s1,
    enableMidiInput example_keyboard (initial example_window)
      = Normal tt s1 /\
    enableMidiInput example_keyboard s1 = Normal tt s1 /\
    JSObject.get String.eqb "Keyboard" (midiPorts s1)
      = Some example_keyboard /\
    JSObject.entries String.eqb "Keyboard" (midiPorts s1) = 1%nat /\
    subscriptions 1%nat s1 = 1%nat.
Proof.
  apply (enableMidiInput_twice example_keyboard (initial example_window)).
  - apply Inv_initial.
  - reflexivity.
  - reflexivity.
Defined.

Lemma MidiSynthClass_createFilter_sets_parameters_witness :
  exists c,
    audioContext example_running = Some c /\
    MidiSynthClass.createFilter example_running =
    Normal (List.length (nodes c))
      (with_audioContext
         (Some {| defaults := defaults c;
                  nodes := nodes c ++
                    [BiquadFilterNode "lowpass"
                       {| value := 1000 |} {| value := 8 |} []];
                  calls := calls c |}) example_running).
Proof.
  eexists. split; [reflexivity|].
  apply (MidiSynthClass_createFilter_sets_parameters example_running).
  reflexivity.
Defined.

(** * More of the script *)

(** ** The else-if rewrite *)

(** X7. The rewrite that dispatches through one else-if chain and the
    script with four separate tests do the same on every message in every
    state: the status ranges exclude one another, and no branch changes what
    a later test reads. *)
Theorem else_if_chain_same_as_separate_tests (message : MIDIMessageEvent)
  (s : State) :
  ElseIfScript.onMidiMessage message s = onMidiMessage message s.
Proof.
  rewrite onMidiMessage_handle.
  unfold ElseIfScript.onMidiMessage.
  destruct (data message) as [[statusByte data1] data2].
  unfold bind at 1. unfold printMessageInfo, modify.
  unfold decode, isNoteOn, isNoteOff.
  replace (statusByte >=? 144) with (144 <=? statusByte) by lia.
  replace (statusByte >=? 128) with (128 <=? statusByte) by lia.
  destruct ((144 <=? statusByte) && (statusByte <=? 159)); [reflexivity|].
  destruct ((128 <=? statusByte) && (statusByte <=? 143)); [reflexivity|].
  destruct (statusByte =? 176).
  - cbn [handle]. destruct (data1 =? 1) eqn:H1; [|reflexivity].
    replace (data1 =? 7) with false by lia. reflexivity.
  - destruct (statusByte =? 224); reflexivity.
Qed.

(** ** What the device callbacks leave alone *)

Lemma audio_logStatus (Q : AudioState -> Button -> Prop) (message : string) :
  preserves (fun s => Q (audio s) (startBtn s)) (logStatus message).
Proof. intros s H. exact H. Qed.

Lemma audio_addEventListener (Q : AudioState -> Button -> Prop) tgt type cb :
  preserves (fun s => Q (audio s) (startBtn s)) (addEventListener tgt type cb).
Proof.
  intros s H. unfold addEventListener, modify, add_listener.
  cbn [final_state]. destruct (existsb _ _); exact H.
Qed.

Lemma audio_removeEventListener (Q : AudioState -> Button -> Prop) tgt type cb :
  preserves (fun s => Q (audio s) (startBtn s))
    (removeEventListener tgt type cb).
Proof. intros s H. exact H. Qed.

Lemma audio_enableMidiInput (Q : AudioState -> Button -> Prop)
  (input : MIDIPort) :
  preserves (fun s => Q (audio s) (startBtn s)) (enableMidiInput input).
Proof.
  unfold enableMidiInput.
  apply preserves_bind; [apply preserves_gets|]. intros [|].
  - apply preserves_ret.
  - repeat (apply preserves_bind; [|intros _]);
      auto using audio_logStatus, audio_addEventListener.
    intros s H. exact H.
Qed.

Lemma audio_disableMidiInput (Q : AudioState -> Button -> Prop)
  (input : MIDIPort) :
  preserves (fun s => Q (audio s) (startBtn s)) (disableMidiInput input).
Proof.
  unfold disableMidiInput.
  apply preserves_bind; [apply preserves_gets|]. intros [|]; cbn [negb].
  - repeat (apply preserves_bind; [|intros _]);
      auto using audio_logStatus, audio_removeEventListener.
    intros s H. exact H.
  - apply preserves_ret.
Qed.

Lemma audio_onStateChange (Q : AudioState -> Button -> Prop) (port : MIDIPort) :
  preserves (fun s => Q (audio s) (startBtn s)) (onStateChange port).
Proof.
  unfold onStateChange.
  apply preserves_bind; [apply audio_logStatus|]. intros _.
  destruct (String.eqb (port_type port) "input"); [|apply preserves_ret].
  destruct (String.eqb (port_state port) "connected");
    [apply audio_enableMidiInput|].
  destruct (String.eqb (port_state port) "disconnected");
    [apply audio_disableMidiInput|apply preserves_ret].
Qed.

Lemma audio_setupMidi_resolved (Q : AudioState -> Button -> Prop)
  (inputs : list MIDIPort) :
  preserves (fun s => Q (audio s) (startBtn s)) (setupMidi_resolved inputs).
Proof.
  unfold setupMidi_resolved.
  apply preserves_bind; [apply audio_addEventListener|]. intros _.
  apply preserves_forEach. intro x. apply audio_enableMidiInput.
Qed.

Lemma audio_onDomContentLoaded (Q : AudioState -> Button -> Prop)
  (nav : bool) :
  preserves (fun s => Q (audio s) (startBtn s)) (onDomContentLoaded nav).
Proof.
  unfold onDomContentLoaded. destruct nav; cbn [negb].
  - apply preserves_bind; [apply audio_logStatus|]. intros _.
    apply audio_addEventListener.
  - apply preserves_bind; [apply audio_logStatus|]. intros _.
    apply preserves_throw.
Qed.

Lemma audio_fire (Q : AudioState -> Button -> Prop) tgt type cb
  (m : M unit) (s : State) :
  preserves (fun s => Q (audio s) (startBtn s)) m ->
  Q (audio s) (startBtn s) ->
  Q (audio (fire tgt type cb m s)) (startBtn (fire tgt type cb m s)).
Proof.
  intros Hm H. unfold fire. destruct (registered _ s); [|exact H].
  now apply Hm.
Qed.

(** ** What a MIDI message does to the audio side *)

Lemma AudioStep_handle (e : MidiEvent) (s : State) :
  Inv s ->
  exists s',
    handle e s = Normal tt s' /\
    AudioStep (audio s) (audio s') /\ same_page s s'.
Proof.
  intro H.
  assert (Hsame : exists s', Normal tt s = Normal tt s' /\
            AudioStep (audio s) (audio s') /\ same_page s s').
  { exists s. split; [reflexivity|]. split; [apply audio_same|].
    repeat split. }
  destruct e as [note velocity|note|controller value|value|]; cbn [handle].
  - destruct (audioContext s) as [c|] eqn:Hc.
    + destruct (inv_running s H c Hc) as [[g Hg] _].
      assert (Hf : started (List.length (nodes c)) c = false).
      { apply fresh_not_started. intros k Hk. eapply inv_calls; eauto. }
      rewrite (playNote_running s c g) by assumption.
      eexists. split; [reflexivity|]. split; [|repeat split].
      unfold audio. cbn. rewrite Hc, Hg. now apply audio_noteOn.
    + rewrite playNote_idle by exact Hc. exact Hsame.
  - destruct (JSObject.get Z.eqb note (pressedKeys s)) as [osc|] eqn:Hk.
    + destruct (audioContext s) as [c|] eqn:Hc.
      * assert (Hs : started osc c = true) by (eapply inv_voices; eauto).
        rewrite (stopNote_present s c note osc) by assumption.
        eexists. split; [reflexivity|]. split; [|repeat split].
        unfold audio. cbn. rewrite Hc. now apply audio_noteOff.
      * destruct (inv_idle s H Hc) as [_ [_ He]]. rewrite He in Hk.
        discriminate.
    + rewrite stopNote_absent by exact Hk. exact Hsame.
  - destruct (controller =? 7); [|exact Hsame].
    destruct (masterGainNode s) as [g|] eqn:Hg.
    + destruct (audioContext s) as [c|] eqn:Hc.
      * rewrite (setMasterGain_running s c g) by assumption.
        eexists. split; [reflexivity|]. split; [|repeat split].
        unfold audio. cbn. rewrite Hc, Hg. apply audio_gain.
      * destruct (inv_idle s H Hc) as [Hn _]. congruence.
    + rewrite setMasterGain_idle by exact Hg. exact Hsame.
  - destruct (masterFilter s) as [f|] eqn:Hf.
    + destruct (audioContext s) as [c|] eqn:Hc.
      * rewrite (setMasterFilterFreq_running s c f) by assumption.
        eexists. split; [reflexivity|]. split; [|repeat split].
        unfold audio. cbn. rewrite Hc, Hf. apply audio_cutoff.
      * destruct (inv_idle s H Hc) as [_ [Hn _]]. congruence.
    + rewrite setMasterFilterFreq_idle by exact Hf. exact Hsame.
  - exact Hsame.
Qed.

Lemma AudioStep_onMidiMessage (message : MIDIMessageEvent) (s : State) :
  Inv s ->
  exists s',
    onMidiMessage message s = Normal tt s' /\
    AudioStep (audio s) (audio s') /\ same_page s s'.
Proof.
  intro H. rewrite onMidiMessage_handle.
  destruct (data message) as [[statusByte data1] data2].
  apply (AudioStep_handle (decode statusByte data1 data2)
           (with_messages (Some (messageInfo message)) s)).
  apply (Inv_ext s); auto.
Qed.



(** ** Every event as a step of the audio side *)

Lemma AudioStep_onStartBtnClick (s : State) :
  Inv s -> disabled (startBtn s) = false ->
  AudioStep (audio s) (audio (final_state (onStartBtnClick s))).
Proof.
  intros H Hb.
  assert (Hc : audioContext s = None).
  { destruct (audioContext s) as [c|] eqn:Hc; [|reflexivity].
    destruct (inv_running s H c Hc) as [_ [_ Hd]]. congruence. }
  destruct (inv_idle s H Hc) as [Hg [Hf Hk]].
  destruct (ACtx (window s)) as [ctor|] eqn:Hw.
  - rewrite (onStartBtnClick_supported s ctor Hw). unfold audio. cbn.
    rewrite Hc, Hg, Hf, Hk. now apply audio_start.
  - rewrite (onStartBtnClick_unsupported s Hw). apply audio_same.
Qed.

Lemma AudioStep_step (s : State) (e : Event) :
  Inv s -> AudioStep (audio s) (audio (step s e)).
Proof.
  intro H. destruct e; cbn [step].
  - apply (audio_onDomContentLoaded (fun a _ => AudioStep (audio s) a)).
    apply audio_same.
  - apply (audio_setupMidi_resolved (fun a _ => AudioStep (audio s) a)).
    apply audio_same.
  - apply audio_same.
  - apply (audio_fire (fun a _ => AudioStep (audio s) a));
      [apply (audio_onStateChange (fun a _ => AudioStep (audio s) a))|].
    apply (audio_fire (fun a _ => AudioStep (audio s) a));
      [apply (audio_onStateChange (fun a _ => AudioStep (audio s) a))|].
    apply audio_same.
  - unfold fire. destruct (registered _ s); [|apply audio_same].
    destruct (AudioStep_onMidiMessage message s H) as [s' [He [Ha _]]].
    rewrite He. exact Ha.
  - destruct (disabled (startBtn s)) eqn:Hb; [apply audio_same|].
    unfold fire. destruct (registered _ s); [|apply audio_same].
    now apply AudioStep_onStartBtnClick.
Qed.

(** A property of the audio side that every step keeps is kept by every
    sequence of events. *)
Lemma audio_run (P : AudioState -> Prop) :
  (forall a a', P a -> AudioStep a a' -> P a') ->
  forall events s, Inv s -> P (audio s) -> P (audio (run events s)).
Proof.
  intros Hstep events. induction events as [|e events IH]; intros s Hi Hp.
  - exact Hp.
  - cbn. apply IH; [now apply Inv_step|].
    apply (Hstep (audio s)); [exact Hp|now apply AudioStep_step].
Qed.

Lemma audio_invariant (P : AudioState -> Prop) :
  (forall w, P (audio (initial w))) ->
  (forall a a', P a -> AudioStep a a' -> P a') ->
  forall s, Reachable s -> P (audio s).
Proof.
  intros Hinit Hstep s [w [events ->]].
  apply audio_run; [exact Hstep|apply Inv_initial|apply Hinit].
Qed.



(** ** The registry's oscillators *)

Lemma held_In (osc : NodeId) (keys : JSObject.t (K := Z) (V := NodeId)) :
  held osc keys = true <-> In osc (map snd keys).
Proof.
  unfold held. rewrite existsb_exists, in_map_iff. split.
  - intros [kv [Hin He]]. apply Nat.eqb_eq in He. exists kv. auto.
  - intros [kv [He Hin]]. exists kv. split; [exact Hin|].
    now apply Nat.eqb_eq.
Qed.

Lemma held_false (osc : NodeId) (keys : JSObject.t (K := Z) (V := NodeId)) :
  held osc keys = false <-> ~ In osc (map snd keys).
Proof.
  rewrite <- held_In. destruct (held osc keys); split; intro H;
    try discriminate; try reflexivity; try (intro; discriminate).
  exfalso. now apply H.
Qed.

Lemma get_In_values (note : Z) (osc : NodeId)
  (keys : JSObject.t (K := Z) (V := NodeId)) :
  JSObject.get Z.eqb note keys = Some osc -> In osc (map snd keys).
Proof.
  induction keys as [|[k v] keys IH]; cbn; [discriminate|].
  destruct (note =? k).
  - intro H. injection H as ->. now left.
  - intro H. right. now apply IH.
Qed.

Lemma In_values_set (osc new : NodeId) (note : Z)
  (keys : JSObject.t (K := Z) (V := NodeId)) :
  In osc (map snd (JSObject.set Z.eqb note new keys)) ->
  osc = new \/ In osc (map snd keys).
Proof.
  induction keys as [|[k v] keys IH]; cbn.
  - intros [H|[]]. now left.
  - destruct (note =? k); cbn.
    + intros [H|H]; [now left|right; now right].
    + intros [H|H]; [right; now left|].
      destruct (IH H) as [E|E]; [now left|right; now right].
Qed.

Lemma NoDup_values_set (new : NodeId) (note : Z)
  (keys : JSObject.t (K := Z) (V := NodeId)) :
  NoDup (map snd keys) -> ~ In new (map snd keys) ->
  NoDup (map snd (JSObject.set Z.eqb note new keys)).
Proof.
  induction keys as [|[k v] keys IH]; cbn; intros Hd Hn.
  - constructor; [intros []|constructor].
  - inversion Hd as [|x l Hx Hl]; subst.
    destruct (note =? k); cbn.
    + constructor; [|exact Hl]. intro H. apply Hn. now right.
    + constructor.
      * intro H. apply In_values_set in H as [E|E].
        -- apply Hn. left. now symmetry.
        -- now apply Hx.
      * apply IH; [exact Hl|]. intro H. apply Hn. now right.
Qed.

Lemma In_values_delete (osc : NodeId) (note : Z)
  (keys : JSObject.t (K := Z) (V := NodeId)) :
  In osc (map snd (JSObject.delete Z.eqb note keys)) ->
  In osc (map snd keys).
Proof.
  induction keys as [|[k v] keys IH]; cbn; [auto|].
  destruct (note =? k); cbn.
  - intro H. right. now apply IH.
  - intros [H|H]; [now left|right; now apply IH].
Qed.

Lemma NoDup_values_delete (note : Z)
  (keys : JSObject.t (K := Z) (V := NodeId)) :
  NoDup (map snd keys) ->
  NoDup (map snd (JSObject.delete Z.eqb note keys)).
Proof.
  induction keys as [|[k v] keys IH]; cbn; intro Hd; [constructor|].
  inversion Hd as [|x l Hx Hl]; subst.
  destruct (note =? k); cbn; [now apply IH|].
  constructor; [|now apply IH].
  intro H. apply Hx. now apply In_values_delete in H.
Qed.

Lemma released_after_delete (note : Z) (osc : NodeId)
  (keys : JSObject.t (K := Z) (V := NodeId)) :
  NoDup (map snd keys) ->
  JSObject.get Z.eqb note keys = Some osc ->
  ~ In osc (map snd (JSObject.delete Z.eqb note keys)).
Proof.
  induction keys as [|[k v] keys IH]; cbn; intros Hd Hg; [discriminate|].
  inversion Hd as [|x l Hx Hl]; subst.
  destruct (note =? k); cbn.
  - injection Hg as ->. intro H. apply Hx.
    now apply In_values_delete in H.
  - intros [H|H].
    + subst v. apply Hx. now apply get_In_values in Hg.
    + now apply (IH Hl Hg).
Qed.

(** ** The engine's command log, continued *)

Lemma stopped_In (osc : NodeId) (c : BaseAudioContext) :
  stopped osc c = true <-> In (Stop osc) (calls c).
Proof.
  unfold stopped. rewrite existsb_exists. split.
  - intros [k [Hin Hk]]. apply Call_eqb_eq in Hk. now subst.
  - intro H. exists (Stop osc). split; [exact H|]. now apply Call_eqb_eq.
Qed.

Lemma stopped_false (osc : NodeId) (c : BaseAudioContext) :
  stopped osc c = false <-> ~ In (Stop osc) (calls c).
Proof.
  rewrite <- stopped_In. destruct (stopped osc c); split; intro H;
    try discriminate; try reflexivity; try (intro; discriminate).
  exfalso. now apply H.
Qed.

Lemma snoc_split {A} (l l1 l2 : list A) (k x : A) :
  l ++ [k] = l1 ++ x :: l2 ->
  (l2 = [] /\ l = l1 /\ k = x) \/
  (exists l2', l2 = l2' ++ [k] /\ l = l1 ++ x :: l2').
Proof.
  revert l. induction l1 as [|z l1 IH]; intros l H.
  - destruct l as [|y l]; cbn in H.
    + injection H as -> <-. now left.
    + injection H as -> <-. right. now exists l.
  - destruct l as [|y l]; cbn in H.
    + injection H as _ H. destruct l1; discriminate.
    + injection H as -> H. destruct (IH l H) as [[E1 [E2 E3]]|[l2' [E1 E2]]].
      * left. subst. auto.
      * right. exists l2'. subst. auto.
Qed.

Lemma NoDup_snoc {A} (l : list A) (x : A) :
  NoDup l -> ~ In x l -> NoDup (l ++ [x]).
Proof.
  intros Hd Hx. apply NoDup_app.
  - exact Hd.
  - constructor; [intros []|constructor].
  - intros y Hy [<-|[]]. now apply Hx.
Qed.

Lemma LogOk_initial (w : Window) : LogOk (audio (initial w)).
Proof.
  constructor; cbn; try discriminate; auto. constructor.
Qed.

Lemma LogOk_update_node (w : Window) (c : BaseAudioContext)
  (g f : option NodeId) (keys : JSObject.t) (id : NodeId)
  (h : AudioNode -> AudioNode) :
  LogOk {| a_window := w; a_context := Some c; a_gain := g;
           a_filter := f; a_keys := keys |} ->
  LogOk {| a_window := w; a_context := Some (update_node id h c);
           a_gain := g; a_filter := f; a_keys := keys |}.
Proof.
  intros [L1 L2 L3 L4 L5 L6 L7].
  cbn [a_window a_context a_gain a_filter a_keys] in *.
  constructor; cbn; auto; try discriminate.
  - intros c' E. injection E as <-. cbn. now apply L2.
  - intros c' k E. injection E as <-. cbn. rewrite update_nth_length.
    now apply L3.
  - intros c' before rest osc E. injection E as <-. cbn. now apply L4.
  - intros c' osc E. injection E as <-. cbn. now apply L5.
  - intros c' osc E. injection E as <-. cbn. now apply L6.
Qed.

Lemma LogOk_AudioStep (a a' : AudioState) :
  LogOk a -> AudioStep a a' -> LogOk a'.
Proof.
  intros H Hs. destruct Hs as
    [a|w ctor Hw|w c g f keys note velocity Hfresh
     |w c g f keys note osc Hget Hstarted|w c g f keys v|w c g f keys x].
  - exact H.
  - constructor; cbn; try discriminate; auto; intros;
      repeat match goal with
             | E : Some _ = Some _ |- _ => injection E as <-
             end; cbn in *; try contradiction; try constructor.
    destruct before; discriminate.
  - destruct H as [L1 L2 L3 L4 L5 L6 L7].
    cbn [a_window a_context a_gain a_filter a_keys] in *.
    assert (Hnew : ~ In (List.length (nodes c)) (map snd keys)).
    { intro Hin. apply held_In in Hin.
      pose proof (L3 c _ eq_refl (L6 c _ eq_refl Hin)) as Hlt.
      cbn in Hlt. lia. }
    constructor; cbn; try discriminate.
    + intros c' E. injection E as <-. cbn. apply NoDup_snoc; [now apply L2|].
      intro Hin. apply started_In in Hin. congruence.
    + intros c' k E. injection E as <-. cbn. rewrite length_app. cbn.
      intro Hin. apply in_app_or in Hin as [Hin|[<-|[]]].
      * pose proof (L3 c k eq_refl Hin). lia.
      * cbn. lia.
    + intros c' before rest osc E. injection E as <-. cbn. intro Hc.
      apply snoc_split in Hc as [[_ [_ Hk]]|[rest' [_ Hc]]];
        [discriminate|]. now apply (L4 c before rest').
    + intros c' osc E. injection E as <-. cbn. intro Hin.
      apply in_app_or in Hin as [Hin|[Hk|[]]]; [|discriminate].
      apply held_false. intro Hv. apply In_values_set in Hv as [Hv|Hv].
      * pose proof (L3 c _ eq_refl Hin) as Hlt. cbn in Hlt. lia.
      * pose proof (L5 c osc eq_refl Hin) as Hf.
        apply held_false in Hf. now apply Hf.
    + intros c' osc E. injection E as <-. cbn. intro Hh.
      apply held_In, In_values_set in Hh as [->|Hh]; apply in_or_app.
      * right. now left.
      * left. apply (L6 c osc eq_refl). now apply held_In.
    + now apply NoDup_values_set.
  - destruct H as [L1 L2 L3 L4 L5 L6 L7].
    cbn [a_window a_context a_gain a_filter a_keys] in *.
    assert (Hheld : held osc keys = true).
    { apply held_In. now apply get_In_values in Hget. }
    constructor; cbn; try discriminate.
    + intros c' E. injection E as <-. cbn. apply NoDup_snoc; [now apply L2|].
      intro Hin. pose proof (L5 c osc eq_refl Hin). congruence.
    + intros c' k E. injection E as <-. cbn.
      intro Hin. apply in_app_or in Hin as [Hin|[<-|[]]].
      * now apply (L3 c k).
      * cbn. apply started_In in Hstarted.
        exact (L3 c (Start osc) eq_refl Hstarted).
    + intros c' before rest o E. injection E as <-. cbn. intro Hc.
      apply snoc_split in Hc as [[_ [Hb Hk]]|[rest' [_ Hc]]].
      * injection Hk as <-. subst before. now apply started_In.
      * now apply (L4 c before rest').
    + intros c' o E. injection E as <-. cbn. intro Hin.
      apply held_false.
      apply in_app_or in Hin as [Hin|[Hk|[]]].
      * intro Hv. apply In_values_delete in Hv.
        pose proof (L5 c o eq_refl Hin) as Hf.
        apply held_false in Hf. now apply Hf.
      * injection Hk as <-. now apply released_after_delete.
    + intros c' o E. injection E as <-. cbn. intro Hh.
      apply in_or_app. left. apply (L6 c o eq_refl).
      apply held_In. apply held_In in Hh. now apply In_values_delete in Hh.
    + now apply NoDup_values_delete.
  - now apply LogOk_update_node.
  - now apply LogOk_update_node.
Qed.

Lemma Reachable_LogOk (s : State) : Reachable s -> LogOk (audio s).
Proof.
  apply (audio_invariant LogOk).
  - apply LogOk_initial.
  - apply LogOk_AudioStep.
Qed.

(** X10. In every state the page can reach, the commands the engine has
    received are well formed: no oscillator is started twice or stopped
    twice, every [stop] comes after the [start] of the same oscillator, and
    every command names an existing node.  The oscillator registered under
    a note has been started and not stopped, and two notes never share an
    oscillator. *)
Theorem engine_log_well_formed (s : State) (c : BaseAudioContext) :
  Reachable s -> audioContext s = Some c ->
  NoDup (calls c) /\
  (forall before rest osc,
     calls c = before ++ Stop osc :: rest -> In (Start osc) before) /\
  (forall k, In k (calls c) -> (call_id k < List.length (nodes c))%nat) /\
  (forall note osc,
     JSObject.get Z.eqb note (pressedKeys s) = Some osc ->
     started osc c = true /\ stopped osc c = false) /\
  (forall note note' osc,
     JSObject.get Z.eqb note (pressedKeys s) = Some osc ->
     JSObject.get Z.eqb note' (pressedKeys s) = Some osc -> note = note').
Proof.
  intros Hr Hc. destruct (Reachable_LogOk s Hr) as [L1 L2 L3 L4 L5 L6 L7].
  cbn [audio a_window a_context a_gain a_filter a_keys] in *.
  split; [now apply L2|].
  split; [intros before rest osc; now apply L4|].
  split; [intro k; now apply L3|].
  split.
  - intros note osc Hg.
    assert (Hh : held osc (pressedKeys s) = true).
    { apply held_In. now apply get_In_values in Hg. }
    split.
    + apply started_In. now apply L6.
    + apply stopped_false. intro Hin.
      pose proof (L5 c osc Hc Hin). congruence.
  - intros note note' osc Hg Hg'.
    destruct (Z.eq_dec note note') as [E|E]; [exact E|exfalso].
    pose proof (released_after_delete note osc (pressedKeys s) L7 Hg) as Hn.
    apply Hn. apply (get_In_values note').
    now rewrite (JSObjectFacts.get_delete_other Z.eqb Z.eqb_eq).
Qed.

(** On the sample session after two presses of key 60: two starts, no stop,
    and the registry holds the second oscillator. *)
Lemma example_doubled_running :
  exists c, audioContext example_doubled = Some c.
Proof.
  destruct (audioContext example_doubled) as [c|] eqn:Hc.
  - now exists c.
  - discriminate Hc.
Qed.

Lemma engine_log_well_formed_witness :
  exists c,
    audioContext example_doubled = Some c /\
    NoDup (calls c) /\
    (forall note osc,
       JSObject.get Z.eqb note (pressedKeys example_doubled) = Some osc ->
       started osc c = true /\ stopped osc c = false).
Proof.
  destruct example_doubled_running as [c Hc].
  exists c. split; [exact Hc|].
  destruct (engine_log_well_formed example_doubled c
              (Reachable_step _ _ Reachable_example_playing) Hc)
    as [Hd [_ [_ [Hv _]]]].
  split; [exact Hd|exact Hv].
Defined.

(** ** Oscillators the registry has lost *)

Lemma Orphan_AudioStep (osc : NodeId) (a a' : AudioState) :
  LogOk a -> Orphan osc a -> AudioStep a a' -> Orphan osc a'.
Proof.
  intros HL [c0 [Hc [Hs [Hn Hh]]]] Hstep.
  destruct Hstep as
    [a|w ctor Hw|w c g f keys note velocity Hfresh
     |w c g f keys note o Hget Hstarted|w c g f keys v|w c g f keys x];
    cbn [a_window a_context a_gain a_filter a_keys] in *;
    try discriminate; try (injection Hc as <-).
  - exists c0. auto.
  - eexists. split; [reflexivity|].
    split; [|split].
    + apply started_In. cbn. apply in_or_app. left. now apply started_In.
    + apply stopped_false. cbn. intro Hin.
      apply in_app_or in Hin as [Hin|[Hk|[]]]; [|discriminate].
      apply stopped_false in Hn. now apply Hn.
    + apply held_false. intro Hv. apply In_values_set in Hv as [Hv|Hv].
      * subst osc. congruence.
      * apply held_false in Hh. now apply Hh.
  - eexists. split; [reflexivity|].
    assert (Hne : o <> osc).
    { intros ->. apply get_In_values, held_In in Hget. congruence. }
    split; [|split].
    + apply started_In. cbn. apply in_or_app. left. now apply started_In.
    + apply stopped_false. cbn. intro Hin.
      apply in_app_or in Hin as [Hin|[Hk|[]]].
      * apply stopped_false in Hn. now apply Hn.
      * injection Hk as Hk. now apply Hne.
    + apply held_false. intro Hv. apply In_values_delete in Hv.
      apply held_false in Hh. now apply Hh.
  - eexists. split; [reflexivity|]. auto.
  - eexists. split; [reflexivity|]. auto.
Qed.

Lemma Orphan_run (osc : NodeId) (events : list Event) (s : State) :
  Inv s -> LogOk (audio s) -> Orphan osc (audio s) ->
  Orphan osc (audio (run events s)).
Proof.
  intros Hi HL Ho.
  apply (audio_run (fun a => LogOk a /\ Orphan osc a)); auto.
  intros a a' [H1 H2] Hs. split.
  - now apply (LogOk_AudioStep a).
  - now apply (Orphan_AudioStep osc a).
Qed.

Lemma overwritten_not_held (note : Z) (old new : NodeId)
  (keys : JSObject.t (K := Z) (V := NodeId)) :
  NoDup (map snd keys) ->
  JSObject.get Z.eqb note keys = Some old -> old <> new ->
  ~ In old (map snd (JSObject.set Z.eqb note new keys)).
Proof.
  induction keys as [|[k v] keys IH]; cbn; intros Hd Hg Hne; [discriminate|].
  inversion Hd as [|x l Hx Hl]; subst.
  destruct (note =? k); cbn.
  - injection Hg as ->. intros [H|H]; [now apply Hne|now apply Hx].
  - intros [H|H].
    + subst v. apply Hx. now apply get_In_values in Hg.
    + now apply (IH Hl Hg Hne).
Qed.

(** X11. While Running, when a NoteOn arrives for a note that already has a
    registry entry, the oscillator of the old entry is lost for good:
    whatever events follow, it stays started, the engine is never told to
    stop it, and the registry never holds it again. *)
Theorem overwritten_voice_is_never_stopped (s : State) (port : MIDIPort)
  (statusByte note velocity : Z) (old : NodeId) (events : list Event) :
  Reachable s -> isRunning s = true -> 144 <= statusByte <= 159 ->
  JSObject.get Z.eqb note (pressedKeys s) = Some old ->
  let s1 :=
    final_state
      (onMidiMessage
         {| data := (statusByte, note, velocity); target := port |} s) in
  exists c',
    audioContext (run events s1) = Some c' /\
    started old c' = true /\ stopped old c' = false /\
    held old (pressedKeys (run events s1)) = false.
Proof.
  intros Hr Hi Hs Hk s1.
  pose proof (Reachable_Inv s Hr) as HI.
  pose proof (Reachable_LogOk s Hr) as HL.
  destruct (running_state s Hr Hi) as [c [g [Hc [Hg Hf]]]].
  assert (E1 : s1 =
    with_pressedKeys
      (JSObject.set Z.eqb note (List.length (nodes c)) (pressedKeys s))
      (with_audioContext (Some (with_voice note velocity g c))
         (with_messages
            (Some (messageInfo
                     {| data := (statusByte, note, velocity);
                        target := port |})) s))).
  { unfold s1. now rewrite (noteOn_running s c g). }
  assert (HI1 : Inv s1) by (apply Inv_onMidiMessage; exact HI).
  assert (Hstep : AudioStep (audio s) (audio s1)).
  { destruct (AudioStep_onMidiMessage
                {| data := (statusByte, note, velocity); target := port |}
                s HI) as [s' [He [Ha _]]].
    unfold s1. rewrite He. exact Ha. }
  assert (HL1 : LogOk (audio s1)) by now apply (LogOk_AudioStep (audio s)).
  assert (Hheld : In old (map snd (pressedKeys s)))
    by now apply get_In_values in Hk.
  assert (Hst : In (Start old) (calls c)).
  { apply (log_sounding _ HL c old Hc). now apply held_In. }
  assert (Hlt : (old < List.length (nodes c))%nat).
  { exact (log_bound _ HL c (Start old) Hc Hst). }
  assert (Ho : Orphan old (audio s1)).
  { rewrite E1. eexists. split; [reflexivity|]. split; [|split].
    - apply started_In. cbn. apply in_or_app. now left.
    - apply stopped_false. cbn. intro Hin.
      apply in_app_or in Hin as [Hin|[Hx|[]]]; [|discriminate].
      pose proof (log_released _ HL c old Hc Hin) as Hrel.
      apply held_false in Hrel. now apply Hrel.
    - apply held_false. cbn.
      apply overwritten_not_held; [exact (log_distinct _ HL)|exact Hk|lia]. }
  destruct (Orphan_run old events s1 HI1 HL1 Ho) as [c' [Hc' [H1 [H2 H3]]]].
  exists c'. auto.
Qed.

(** Key 60 pressed twice on the sample session, then released and pressed
    once more: oscillator 3, the first one, is still sounding. *)
Lemma overwritten_voice_is_never_stopped_witness :
  let s1 :=
    final_state
      (onMidiMessage {| data := (144, 60, 70); target := example_keyboard |}
         example_playing) in
  let events :=
    [MidiMessageEvent {| data := (128, 60, 0); target := example_keyboard |};
     MidiMessageEvent {| data := (144, 60, 50); target := example_keyboard |}]
  in
  exists c',
    audioContext (run events s1) = Some c' /\
    started 3%nat c' = true /\ stopped 3%nat c' = false /\
    held 3%nat (pressedKeys (run events s1)) = false.
Proof.
  apply (overwritten_voice_is_never_stopped example_playing example_keyboard
           144 60 70 3%nat).
  - exact Reachable_example_playing.
  - reflexivity.
  - lia.
  - reflexivity.
Defined.

(** ** Running for good *)

Lemma Extends_AudioStep (a0 : AudioState) (c : BaseAudioContext)
  (a a' : AudioState) :
  Extends a0 c a -> AudioStep a a' -> Extends a0 c a'.
Proof.
  intros [c0 [Hc [Hd [Hn [[l Hl] [Hw [Hg Hf]]]]]]] Hstep.
  destruct Hstep as
    [a|w ctor Hw'|w c1 g f keys note velocity Hfresh
     |w c1 g f keys note o Hget Hstarted|w c1 g f keys v|w c1 g f keys x];
    cbn [a_window a_context a_gain a_filter a_keys] in *;
    try discriminate; try (injection Hc as <-).
  - exists c0. repeat split; eauto.
  - eexists. split; [reflexivity|]. cbn. rewrite length_app. cbn.
    repeat split; auto; [lia|].
    exists (l ++ [Start (List.length (nodes c1))]).
    now rewrite Hl, app_assoc.
  - eexists. split; [reflexivity|]. cbn.
    repeat split; auto.
    exists (l ++ [Stop o]). now rewrite Hl, app_assoc.
  - eexists. split; [reflexivity|]. cbn. rewrite update_nth_length.
    repeat split; eauto.
  - eexists. split; [reflexivity|]. cbn. rewrite update_nth_length.
    repeat split; eauto.
Qed.

(** X12. Once Running, always Running, with the context it started with:
    whatever events follow, the audio context is never dropped or replaced,
    its nodes are only added to, its command log is only appended to, and
    the window and the master gain and filter variables keep their
    values. *)
Theorem running_is_permanent (s : State) (c : BaseAudioContext)
  (events : list Event) :
  Reachable s -> audioContext s = Some c ->
  exists c',
    audioContext (run events s) = Some c' /\
    defaults c' = defaults c /\
    (List.length (nodes c) <= List.length (nodes c'))%nat /\
    (exists l, calls c' = calls c ++ l) /\
    window (run events s) = window s /\
    masterGainNode (run events s) = masterGainNode s /\
    masterFilter (run events s) = masterFilter s.
Proof.
  intros Hr Hc.
  apply (audio_run (Extends (audio s) c)).
  - intros a a'. apply Extends_AudioStep.
  - now apply Reachable_Inv.
  - exists c. cbn. repeat split; auto. exists []. now rewrite app_nil_r.
Qed.

Lemma running_is_permanent_witness :
  exists c c',
    audioContext example_running = Some c /\
    audioContext
      (run [ClickEvent; StateChangeEvent twin_a;
            MidiMessageEvent {| data := (144, 60, 90);
                                target := example_keyboard |}]
           example_running) = Some c' /\
    (List.length (nodes c) <= List.length (nodes c'))%nat.
Proof.
  eexists.
  destruct (running_is_permanent example_running _
              [ClickEvent; StateChangeEvent twin_a;
               MidiMessageEvent {| data := (144, 60, 90);
                                   target := example_keyboard |}]
              Reachable_example_running eq_refl)
    as [c' [Hc' [_ [Hn _]]]].
  exists c'. split; [reflexivity|]. split; [exact Hc'|exact Hn].
Defined.

(** X13. In a browser that offers neither [AudioContext] nor
    [webkitAudioContext] the session never leaves Idle: after any sequence
    of events there is no audio context, no master gain or filter, and the
    Voice Registry is empty. *)
Theorem never_runs_without_constructor (w : Window) (events : list Event) :
  ACtx w = None ->
  isRunning (run events (initial w)) = false /\
  masterGainNode (run events (initial w)) = None /\
  masterFilter (run events (initial w)) = None /\
  pressedKeys (run events (initial w)) = JSObject.empty.
Proof.
  intro Hw.
  pose (P := fun a : AudioState =>
    a_window a = w /\ a_context a = None /\ a_gain a = None /\
    a_filter a = None /\ a_keys a = JSObject.empty).
  assert (H : P (audio (run events (initial w)))).
  { apply (audio_run P).
    - intros a a' [H1 [H2 [H3 [H4 H5]]]] Hstep.
      destruct Hstep; cbn [a_window a_context a_gain a_filter a_keys] in *;
        try discriminate; unfold P; cbn; auto.
      congruence.
    - apply Inv_initial.
    - unfold P. cbn. auto. }
  destruct H as [_ [H2 [H3 [H4 H5]]]]. cbn in *.
  unfold isRunning. rewrite H2. auto.
Qed.

Lemma never_runs_without_constructor_witness :
  isRunning
    (run [DOMContentLoaded true; MIDIAccessResolved [example_keyboard];
          ClickEvent;
          MidiMessageEvent {| data := (144, 60, 90);
                              target := example_keyboard |}]
         (initial bare_window)) = false.
Proof.
  apply (never_runs_without_constructor bare_window). reflexivity.
Defined.

(** ** Starting needs the click listener *)

Lemma Listener_eqb_other (l l' : Listener) :
  l <> l' -> Listener_eqb l l' = false.
Proof.
  intro H. destruct (Listener_eqb l l') eqn:E; [|reflexivity].
  apply Listener_eqb_eq in E. contradiction.
Qed.

Lemma registered_add_other (l l' : Listener) (s : State) :
  l <> l' -> registered l (add_listener l' s) = registered l s.
Proof.
  intro H. unfold registered, add_listener.
  destruct (existsb (Listener_eqb l') (listeners s)); [reflexivity|].
  cbn. rewrite existsb_app. cbn.
  rewrite (Listener_eqb_other l l' H). now rewrite !orb_false_r.
Qed.

Lemma registered_remove (l l' : Listener) (s : State) :
  registered l s = false -> registered l (remove_listener l' s) = false.
Proof.
  unfold registered, remove_listener. cbn.
  induction (listeners s) as [|x ls IH]; cbn; [auto|].
  destruct (Listener_eqb l x) eqn:E; cbn; [discriminate|].
  intro H. destruct (negb (Listener_eqb l' x)); cbn; rewrite ?E; auto.
Qed.

(** The device callbacks register no listener on the start button. *)
Lemma port_listeners_only (l : Listener) (m : M unit) :
  (exists input, m = enableMidiInput input) \/
  (exists input, m = disableMidiInput input) \/
  (exists port, m = onStateChange port) ->
  fst (fst l) = ButtonTarget ->
  preserves (fun s => registered l s = false) m.
Proof.
  intros Hm Hl.
  assert (Hadd : forall id type cb,
            preserves (fun s => registered l s = false)
              (addEventListener (PortTarget id) type cb)).
  { intros id type cb s H. unfold addEventListener, modify.
    cbn [final_state]. rewrite registered_add_other; [exact H|].
    intros ->. discriminate. }
  assert (Hrem : forall id type cb,
            preserves (fun s => registered l s = false)
              (removeEventListener (PortTarget id) type cb)).
  { intros id type cb s H. unfold removeEventListener, modify.
    cbn [final_state]. now apply registered_remove. }
  assert (Hlog : forall message,
            preserves (fun s => registered l s = false) (logStatus message)).
  { intros message s H. exact H. }
  assert (Hen : forall input,
            preserves (fun s => registered l s = false)
              (enableMidiInput input)).
  { intro input. unfold enableMidiInput.
    apply preserves_bind; [apply preserves_gets|]. intros [|].
    - apply preserves_ret.
    - repeat (apply preserves_bind; [|intros _]); auto.
      intros s H. exact H. }
  assert (Hdis : forall input,
            preserves (fun s => registered l s = false)
              (disableMidiInput input)).
  { intro input. unfold disableMidiInput.
    apply preserves_bind; [apply preserves_gets|]. intros [|]; cbn [negb].
    - repeat (apply preserves_bind; [|intros _]); auto.
      intros s H. exact H.
    - apply preserves_ret. }
  destruct Hm as [[input ->]|[[input ->]|[port ->]]]; auto.
  unfold onStateChange.
  apply preserves_bind; [apply Hlog|]. intros _.
  destruct (String.eqb (port_type port) "input"); [|apply preserves_ret].
  destruct (String.eqb (port_state port) "connected"); [apply Hen|].
  destruct (String.eqb (port_state port) "disconnected");
    [apply Hdis|apply preserves_ret].
Qed.

Lemma onDomContentLoaded_unsupported (s : State) :
  onDomContentLoaded false s =
  Throw TypeError
    (with_status (status s ++ "No MIDI support available." ++ newline)%string
       s).
Proof. reflexivity. Qed.

(** The state of a page on which no load event with MIDI support has been
    handled: Idle, no click listener, the start button untouched. *)
Lemma unloaded_step (w : Window) (s : State) (e : Event) :
  e <> DOMContentLoaded true ->
  Inv s /\
  registered (ButtonTarget, "click", cb_onStartBtnClick) s = false /\
  audio s = audio (initial w) /\ startBtn s = startBtn (initial w) ->
  Inv (step s e) /\
  registered (ButtonTarget, "click", cb_onStartBtnClick) (step s e) = false /\
  audio (step s e) = audio (initial w) /\
  startBtn (step s e) = startBtn (initial w).
Proof.
  intros He [Hi [Hr [Ha Hb]]].
  split; [now apply Inv_step|].
  pose (Q := fun (a : AudioState) (b : Button) =>
               a = audio (initial w) /\ b = startBtn (initial w)).
  assert (HQ : Q (audio s) (startBtn s)) by (split; assumption).
  destruct e as [[|]| inputs | message | port | message |]; cbn [step].
  - contradiction.
  - split; [exact Hr|].
    apply (audio_onDomContentLoaded Q false s HQ).
  - split.
    + unfold setupMidi_resolved.
      apply (preserves_bind
               (fun s => registered
                           (ButtonTarget, "click", cb_onStartBtnClick) s
                         = false)); [| |exact Hr].
      * intros s0 H0. unfold addEventListener, modify. cbn [final_state].
        rewrite registered_add_other; [exact H0|discriminate].
      * intros _. apply preserves_forEach. intro x.
        apply port_listeners_only; [left; now exists x|reflexivity].
    + apply (audio_setupMidi_resolved Q inputs s HQ).
  - split; [exact Hr|]. split; assumption.
  - split.
    + unfold fire.
      destruct (registered (AccessTarget, _, _) _).
      * apply port_listeners_only; [right; right; now exists port|
                                    reflexivity|].
        destruct (registered (PortTarget _, _, _) s); [|exact Hr].
        apply port_listeners_only; [right; right; now exists port|
                                    reflexivity|exact Hr].
      * destruct (registered (PortTarget _, _, _) s); [|exact Hr].
        apply port_listeners_only; [right; right; now exists port|
                                    reflexivity|exact Hr].
    + apply (audio_fire Q); [apply (audio_onStateChange Q)|].
      apply (audio_fire Q); [apply (audio_onStateChange Q)|exact HQ].
  - unfold fire.
    destruct (registered (PortTarget _, _, _) s); [|auto].
    assert (Hc : audioContext s = None).
    { change (a_context (audio s) = None). now rewrite Ha. }
    destruct (inv_idle s Hi Hc) as [Hg [Hf Hk]].
    rewrite onMidiMessage_handle.
    destruct (data message) as [[statusByte data1] data2].
    rewrite handle_idle; auto.
  - destruct (disabled (startBtn s)); [auto|].
    unfold fire. rewrite Hr. auto.
Qed.

(** X14. The session can start only after the page has loaded with Web MIDI
    support.  Without it [onDomContentLoaded] logs one line and ends in a
    [TypeError], thrown by [disableStartBtn()] before it touches the button;
    and as long as no load event with MIDI support is handled, whatever else
    happens, the click listener is not registered, the session stays Idle and
    the start button stays enabled. *)
Theorem no_start_without_midi_support (w : Window) (events : list Event) :
  Forall (fun e => e <> DOMContentLoaded true) events ->
  onDomContentLoaded false (initial w) =
    Throw TypeError
      (with_status ("No MIDI support available." ++ newline)%string
         (initial w)) /\
  isRunning (run events (initial w)) = false /\
  registered (ButtonTarget, "click", cb_onStartBtnClick)
    (run events (initial w)) = false /\
  disabled (startBtn (run events (initial w))) = false.
Proof.
  intro Hall. split; [reflexivity|].
  assert (G : forall s,
    Inv s /\
    registered (ButtonTarget, "click", cb_onStartBtnClick) s = false /\
    audio s = audio (initial w) /\ startBtn s = startBtn (initial w) ->
    Inv (run events s) /\
    registered (ButtonTarget, "click", cb_onStartBtnClick) (run events s)
      = false /\
    audio (run events s) = audio (initial w) /\
    startBtn (run events s) = startBtn (initial w)).
  { induction Hall as [|e events He Hall IH]; intros s H; [exact H|].
    cbn. apply IH. now apply unloaded_step. }
  destruct (G (initial w)) as [_ [Hr [Ha Hb]]].
  { split; [apply Inv_initial|]. auto. }
  split.
  - unfold isRunning. change (audioContext (run events (initial w)))
      with (a_context (audio (run events (initial w)))).
    now rewrite Ha.
  - split; [exact Hr|]. now rewrite Hb.
Qed.

Lemma no_start_without_midi_support_witness :
  isRunning
    (run [DOMContentLoaded false; ClickEvent;
          MIDIAccessResolved [example_keyboard]; ClickEvent]
         (initial example_window)) = false.
Proof.
  apply (no_start_without_midi_support example_window
           [DOMContentLoaded false; ClickEvent;
            MIDIAccessResolved [example_keyboard]; ClickEvent]).
  repeat constructor; discriminate.
Defined.

(** X15. A second click on the start button does nothing: after one click
    has been handled, handling another leaves the whole state as it is, so
    at most one audio context is ever created. *)
Theorem second_click_does_nothing (s : State) :
  step (step s ClickEvent) ClickEvent = step s ClickEvent.
Proof.
  assert (H : step s ClickEvent = s \/
              disabled (startBtn (step s ClickEvent)) = true).
  { cbn [step]. destruct (disabled (startBtn s)) eqn:Hb; [now left|].
    unfold fire.
    destruct (registered (ButtonTarget, "click", cb_onStartBtnClick) s);
      [right|now left].
    destruct (ACtx (window s)) as [ctor|] eqn:Hw.
    - now rewrite (onStartBtnClick_supported s ctor Hw).
    - now rewrite (onStartBtnClick_unsupported s Hw). }
  destruct H as [H|H].
  - rewrite H. exact H.
  - remember (step s ClickEvent) as s1. cbn [step]. now rewrite H.
Qed.

(** ** Connecting and disconnecting *)

Lemma delete_set_absent {V} (k : string) (v : V)
  (o : JSObject.t (K := string) (V := V)) :
  JSObject.get String.eqb k o = None ->
  JSObject.delete String.eqb k (JSObject.set String.eqb k v o) = o.
Proof.
  induction o as [|[k' v'] o IH]; cbn.
  - now rewrite String.eqb_refl.
  - destruct (String.eqb k k') eqn:E; [discriminate|].
    intro H. cbn. rewrite E. now rewrite IH.
Qed.

Lemma filter_absent (l : Listener) (ls : list Listener) :
  existsb (Listener_eqb l) ls = false ->
  filter (fun l' => negb (Listener_eqb l l')) ls = ls.
Proof.
  induction ls as [|x ls IH]; cbn; [reflexivity|].
  destruct (Listener_eqb l x); cbn; [discriminate|].
  intro H. now rewrite IH.
Qed.

Lemma remove_after_add (l : Listener) (s : State) :
  registered l s = false ->
  listeners (remove_listener l (add_listener l s)) = listeners s.
Proof.
  unfold registered, remove_listener, add_listener. intro H.
  rewrite H. cbn. rewrite filter_app. cbn.
  rewrite Listener_eqb_same. cbn. rewrite app_nil_r.
  now apply filter_absent.
Qed.

Lemma disableMidiInput_known (input : MIDIPort) (s : State) :
  midiPorts_truthy (name input) s = true ->
  disableMidiInput input s =
  Normal tt
    (with_midiPorts
       (JSObject.delete String.eqb (name input) (midiPorts s))
       (remove_listener
          (PortTarget (port_id input), "midimessage", cb_onMidiMessage)
          (remove_listener
             (PortTarget (port_id input), "statechange", cb_onStateChange)
             (with_status
                (status s ++ ("Disabling MIDI input: '" ++ name input ++ "'")
                 ++ newline)%string s)))).
Proof.
  intro H. unfold disableMidiInput, bind, gets. rewrite H. reflexivity.
Qed.

(** X16. Connect then disconnect is a round trip.  For a port whose name is
    not inherited and not recorded, and which has no listener yet,
    [enableMidiInput] followed by [disableMidiInput] completes and gives
    back the Device Registry and the listener lists exactly as they were,
    and never touches the audio side; only the status log has grown. *)
Theorem connect_then_disconnect_restores (input : MIDIPort) (s : State) :
  JSObject.inherited (name input) = false ->
  JSObject.get String.eqb (name input) (midiPorts s) = None ->
  registered (PortTarget (port_id input), "statechange", cb_onStateChange) s
    = false ->
  registered (PortTarget (port_id input), "midimessage", cb_onMidiMessage) s
    = false ->
  exists s1 s2,
    enableMidiInput input s = Normal tt s1 /\
    subscriptions (port_id input) s1 = 1%nat /\
    disableMidiInput input s1 = Normal tt s2 /\
    midiPorts s2 = midiPorts s /\ listeners s2 = listeners s /\
    audio s2 = audio s /\ startBtn s2 = startBtn s.
Proof.
  intros Hi Hk Hs Hm.
  assert (Hf : midiPorts_truthy (name input) s = false).
  { unfold midiPorts_truthy. now rewrite Hk. }
  set (L1 := (PortTarget (port_id input), "statechange", cb_onStateChange))
    in *.
  set (L2 := (PortTarget (port_id input), "midimessage", cb_onMidiMessage))
    in *.
  assert (Hne : L2 <> L1) by discriminate.
  assert (Hne' : L1 <> L2) by discriminate.
  eexists. eexists.
  split; [now apply enableMidiInput_unknown|].
  fold L1 L2.
  set (s0 := with_status
               (status s ++ ("Found MIDI input: '" ++ name input ++ "'") ++
                newline)%string s).
  assert (Hls : listeners (add_listener L2 (add_listener L1 s0))
                = (listeners s ++ [L1]) ++ [L2]).
  { assert (E1 : listeners (add_listener L1 s0) = listeners s ++ [L1]).
    { unfold add_listener. unfold registered in Hs.
      cbn [listeners s0 with_status]. now rewrite Hs. }
    unfold add_listener at 1. rewrite E1, existsb_app.
    unfold registered in Hm. rewrite Hm. cbn [existsb orb].
    rewrite (Listener_eqb_other L2 L1 Hne). cbn [orb listeners with_listeners].
    reflexivity. }
  unfold registered in Hs, Hm.
  split.
  { unfold subscriptions, occurrences. fold L2.
    cbn [listeners with_midiPorts].
    rewrite Hls, !filter_app, !length_app.
    rewrite (filter_none _ _ Hm). cbn [filter].
    rewrite (Listener_eqb_other L2 L1 Hne), Listener_eqb_same. reflexivity. }
  split.
  { apply disableMidiInput_known. unfold midiPorts_truthy.
    cbn [midiPorts with_midiPorts].
    now rewrite (JSObjectFacts.get_set_same String.eqb String.eqb_eq). }
  cbn [midiPorts with_midiPorts]. fold L1 L2.
  split; [now apply delete_set_absent|].
  split; [|split].
  - unfold remove_listener at 1 2.
    cbn [listeners with_listeners with_midiPorts with_status].
    fold s0. rewrite Hls. rewrite !filter_app. cbn [filter].
    rewrite Listener_eqb_same, (Listener_eqb_other L1 L2 Hne').
    cbn [negb filter]. rewrite Listener_eqb_same. cbn [negb].
    rewrite !app_nil_r.
    rewrite (filter_absent _ _ Hs). now apply filter_absent.
  - unfold audio, remove_listener, add_listener.
    repeat match goal with
           | |- context [if ?b then _ else _] => destruct b
           end; reflexivity.
  - unfold remove_listener, add_listener.
    repeat match goal with
           | |- context [if ?b then _ else _] => destruct b
           end; reflexivity.
Qed.

(** A new port on the sample session. *)
Lemma connect_then_disconnect_restores_witness :
  exists s1 s2,
    enableMidiInput twin_a example_running = Normal tt s1 /\
    subscriptions 7%nat s1 = 1%nat /\
    disableMidiInput twin_a s1 = Normal tt s2 /\
    midiPorts s2 = midiPorts example_running /\
    listeners s2 = listeners example_running.
Proof.
  destruct (connect_then_disconnect_restores twin_a example_running)
    as [s1 [s2 [H1 [H2 [H3 [H4 [H5 _]]]]]]]; try reflexivity.
  exists s1, s2. auto.
Defined.

Lemma filter_filter_other (l l' : Listener) (ls : list Listener) :
  l <> l' ->
  filter (Listener_eqb l)
    (filter (fun x => negb (Listener_eqb l' x)) ls)
  = filter (Listener_eqb l) ls.
Proof.
  intro H. induction ls as [|x ls IH]; cbn; [reflexivity|].
  destruct (Listener_eqb l' x) eqn:E; cbn.
  - apply Listener_eqb_eq in E. subst x.
    now rewrite (Listener_eqb_other l l' H).
  - destruct (Listener_eqb l x); now rewrite IH.
Qed.

(** X17. Of two port objects that carry one name only the first is ever
    subscribed, and the second can unrecord it.  When the registry holds
    port [a], [enableMidiInput] on another port [b] with the same name
    changes nothing, so [b] gets no listener; [disableMidiInput] on [b]
    deletes the record of [a] while every listener of [a] stays in place,
    so [a] goes on delivering messages without being recorded. *)
Theorem same_name_ports_share_one_record (a b : MIDIPort) (s : State) :
  name b = name a -> port_id b <> port_id a ->
  JSObject.get String.eqb (name a) (midiPorts s) = Some a ->
  enableMidiInput b s = Normal tt s /\
  exists s',
    disableMidiInput b s = Normal tt s' /\
    JSObject.get String.eqb (name a) (midiPorts s') = None /\
    subscriptions (port_id a) s' = subscriptions (port_id a) s /\
    audio s' = audio s.
Proof.
  intros Hn Hid Hk.
  assert (Ht : midiPorts_truthy (name b) s = true).
  { unfold midiPorts_truthy. now rewrite Hn, Hk. }
  split; [now apply enableMidiInput_known|].
  eexists. split; [now apply disableMidiInput_known|].
  cbn [midiPorts with_midiPorts].
  split.
  { rewrite Hn. apply JSObjectFacts.get_delete_same. }
  split; [|reflexivity].
  unfold subscriptions, occurrences, remove_listener.
  cbn [listeners with_listeners with_midiPorts with_status].
  rewrite !filter_filter_other; [reflexivity| |];
    intro E; injection E as E; now apply Hid.
Qed.

(** Twin keyboards: [twin_a] connected first, then [twin_b] reported as
    connected and later as disconnected. *)
Lemma same_name_ports_share_one_record_witness :
  let s := step example_running (StateChangeEvent twin_a) in
  enableMidiInput twin_b s = Normal tt s /\
  exists s',
    disableMidiInput twin_b s = Normal tt s' /\
    JSObject.get String.eqb "Twin" (midiPorts s') = None /\
    subscriptions 7%nat s' = subscriptions 7%nat s.
Proof.
  intro s.
  destruct (same_name_ports_share_one_record twin_a twin_b s)
    as [He [s' [Hd [Hg [Hs _]]]]].
  - reflexivity.
  - discriminate.
  - reflexivity.
  - split; [exact He|]. exists s'. auto.
Defined.

(** ** Setting up MIDI *)

Lemma enableMidiInput_keeps_records (input : MIDIPort) (s : State) :
  exists s',
    enableMidiInput input s = Normal tt s' /\
    audio s' = audio s /\
    (forall k q, JSObject.get String.eqb k (midiPorts s) = Some q ->
                 JSObject.get String.eqb k (midiPorts s') = Some q) /\
    (JSObject.inherited (name input) = false ->
     exists q, JSObject.get String.eqb (name input) (midiPorts s') = Some q).
Proof.
  destruct (midiPorts_truthy (name input) s) eqn:Ht.
  - exists s. split; [now apply enableMidiInput_known|].
    split; [reflexivity|]. split; [auto|].
    intro Hi. unfold midiPorts_truthy in Ht.
    destruct (JSObject.get String.eqb (name input) (midiPorts s)) as [q|];
      [now exists q|congruence].
  - eexists. split; [now apply enableMidiInput_unknown|].
    cbn [midiPorts with_midiPorts].
    split.
    { unfold audio, add_listener. cbn.
      repeat match goal with
             | |- context [if ?b then _ else _] => destruct b
             end; reflexivity. }
    split.
    + intros k q Hk.
      rewrite (JSObjectFacts.get_set_other String.eqb String.eqb_eq);
        [exact Hk|].
      intros ->. unfold midiPorts_truthy in Ht. now rewrite Hk in Ht.
    + intros _. exists input.
      apply (JSObjectFacts.get_set_same String.eqb String.eqb_eq).
Qed.

Lemma forEach_enableMidiInput (inputs : list MIDIPort) (s : State) :
  exists s',
    forEach enableMidiInput inputs s = Normal tt s' /\
    audio s' = audio s /\
    (forall k q, JSObject.get String.eqb k (midiPorts s) = Some q ->
                 JSObject.get String.eqb k (midiPorts s') = Some q) /\
    (forall p, In p inputs -> JSObject.inherited (name p) = false ->
     exists q, JSObject.get String.eqb (name p) (midiPorts s') = Some q).
Proof.
  revert s. induction inputs as [|x inputs IH]; intro s.
  - exists s. repeat split; auto. intros p [].
  - destruct (enableMidiInput_keeps_records x s) as [s1 [E1 [A1 [K1 R1]]]].
    destruct (IH s1) as [s' [E2 [A2 [K2 R2]]]].
    exists s'. split.
    { cbn [forEach]. unfold bind. now rewrite E1. }
    split; [congruence|].
    split; [auto|].
    intros p [<-|Hin] Hi.
    + destruct (R1 Hi) as [q Hq]. exists q. now apply K2.
    + now apply R2.
Qed.

(** X18. When MIDI access is granted, [setupMidi] goes on without an
    exception whatever inputs it is given: afterwards every input whose name
    is not inherited has a record under its name, every record that existed
    before is still there with the port it held (a recorded port is never
    replaced), and the audio side is untouched. *)
Theorem setupMidi_records_every_input (inputs : list MIDIPort) (s : State) :
  exists s',
    setupMidi_resolved inputs s = Normal tt s' /\
    audio s' = audio s /\
    registered (AccessTarget, "statechange", cb_onStateChange) s' = true /\
    (forall k q, JSObject.get String.eqb k (midiPorts s) = Some q ->
                 JSObject.get String.eqb k (midiPorts s') = Some q) /\
    (forall p, In p inputs -> JSObject.inherited (name p) = false ->
     exists q, JSObject.get String.eqb (name p) (midiPorts s') = Some q).
Proof.
  set (L := (AccessTarget, "statechange", cb_onStateChange)).
  destruct (forEach_enableMidiInput inputs (add_listener L s))
    as [s' [E [A [K R]]]].
  exists s'. split.
  { unfold setupMidi_resolved, bind, addEventListener, modify. exact E. }
  assert (Hm : midiPorts (add_listener L s) = midiPorts s).
  { unfold add_listener. now destruct (existsb _ _). }
  split.
  { rewrite A. unfold audio, add_listener. now destruct (existsb _ _). }
  split.
  { assert (G : forall (l : list MIDIPort) s0,
              registered L s0 = true ->
              registered L (final_state (forEach enableMidiInput l s0))
              = true).
    { intros l. apply (preserves_forEach (fun s0 => registered L s0 = true)).
      intros x s0 H0.
      destruct (midiPorts_truthy (name x) s0) eqn:Ht.
      - now rewrite enableMidiInput_known.
      - rewrite enableMidiInput_unknown by exact Ht. cbn [final_state].
        unfold registered. cbn [listeners with_midiPorts].
        change (registered L
                  (add_listener
                     (PortTarget (port_id x), "midimessage", cb_onMidiMessage)
                     (add_listener
                        (PortTarget (port_id x), "statechange",
                         cb_onStateChange)
                        (with_status
                           (status s0 ++
                            ("Found MIDI input: '" ++ name x ++ "'") ++
                            newline)%string s0))) = true).
        rewrite !registered_add_other by discriminate. exact H0. }
    specialize (G inputs (add_listener L s) (registered_add_listener L s)).
    now rewrite E in G. }
  split.
  - intros k q Hk. apply K. now rewrite Hm.
  - exact R.
Qed.

(** ** The rewrite without a registry *)

Lemma add_listener_registered (l : Listener) (s : State) :
  registered l s = true -> add_listener l s = s.
Proof. unfold registered, add_listener. now intros ->. Qed.

Lemma registered_add_mono (l l' : Listener) (s : State) :
  registered l s = true -> registered l (add_listener l' s) = true.
Proof.
  unfold registered, add_listener. intro H.
  destruct (existsb (Listener_eqb l') (listeners s)); [exact H|].
  cbn. rewrite existsb_app, H. reflexivity.
Qed.

(** X19. The [enableMidiInput] of the rewrite that keeps no registry relies
    on the listener lists alone: called twice on the same port, for any name
    at all, it leaves the listeners exactly as one call does, and the port
    has one subscription to the message intake. *)
Theorem InitScript_enable_twice_subscribes_once (input : MIDIPort)
  (s : State) :
  Reachable s ->
  exists s1 s2,
    InitScript.enableMidiInput input s = Normal tt s1 /\
    InitScript.enableMidiInput input s1 = Normal tt s2 /\
    listeners s2 = listeners s1 /\
    subscriptions (port_id input) s2 = 1%nat /\
    midiPorts s2 = midiPorts s /\ audio s2 = audio s.
Proof.
  intro Hr. pose proof (Reachable_Inv s Hr) as HI.
  set (L1 := (PortTarget (port_id input), "statechange", cb_onStateChange)).
  set (L2 := (PortTarget (port_id input), "midimessage", cb_onMidiMessage)).
  set (line := ("Found MIDI input: '" ++ name input ++ "'")%string).
  set (s1 := add_listener L2
               (add_listener L1
                  (with_status (status s ++ line ++ newline)%string s))).
  assert (H1 : registered L1 s1 = true).
  { unfold s1. apply registered_add_mono, registered_add_listener. }
  assert (H2 : registered L2 s1 = true).
  { unfold s1. apply registered_add_listener. }
  set (s1' := with_status (status s1 ++ line ++ newline)%string s1).
  assert (E : add_listener L2 (add_listener L1 s1') = s1').
  { rewrite (add_listener_registered L1 s1') by exact H1.
    now rewrite (add_listener_registered L2 s1') by exact H2. }
  exists s1, (add_listener L2 (add_listener L1 s1')).
  split; [reflexivity|]. split; [reflexivity|].
  rewrite E.
  split; [reflexivity|].
  split.
  - assert (HI1 : Inv s1).
    { unfold s1. apply (Inv_addEventListener _ "midimessage" cb_onMidiMessage).
      apply (Inv_addEventListener _ "statechange" cb_onStateChange).
      apply (Inv_logStatus line). exact HI. }
    pose proof (inv_listeners s1 HI1 L2) as Hle.
    unfold registered in H2. apply filter_some in H2.
    unfold subscriptions, occurrences in *. fold L2.
    cbn [listeners s1' with_status]. lia.
  - split.
    + unfold s1', s1, add_listener. cbn.
      repeat match goal with
             | |- context [if ?b then _ else _] => destruct b
             end; reflexivity.
    + unfold s1', s1, audio, add_listener. cbn.
      repeat match goal with
             | |- context [if ?b then _ else _] => destruct b
             end; reflexivity.
Qed.

Lemma InitScript_enable_twice_subscribes_once_witness :
  exists s1 s2,
    InitScript.enableMidiInput constructor_port example_idle
      = Normal tt s1 /\
    InitScript.enableMidiInput constructor_port s1 = Normal tt s2 /\
    listeners s2 = listeners s1 /\
    subscriptions 2%nat s2 = 1%nat.
Proof.
  destruct (InitScript_enable_twice_subscribes_once constructor_port
              example_idle Reachable_example_idle)
    as [s1 [s2 [H1 [H2 [H3 [H4 _]]]]]].
  exists s1, s2. auto.
Defined.

(** ** The mappers *)



